(** * PhaseFlow numerical core: [solveODE] and [analyzeMatrix]

    A shallow embedding of [services/odeSolver.ts].  The TypeScript code
    computes with [number], that is IEEE 754 binary64.  The embedding is
    written once, over an interface [Number] that lists the operations the
    source uses, and is then read at two instances:

    - [Float64]: Rocq's primitive binary64 floats, whose operations are the
      ones a JavaScript engine performs (round to nearest even, a NaN that
      compares false with everything, signed zeros, overflow to infinity);
    - [Exact]: the real numbers, the arithmetic the prose of the
      specification has in mind.

    Theorems about the shape of the results are proved on [Float64]; the
    algebraic identities that rounding destroys are proved on [Exact].

    The step count of [solveODE] is a natural number: the [for] loop runs
    [i = 0, 1, ...] while [i < steps], and its callers pass a non-negative
    integer. *)

From Stdlib Require Import ZArith String List Bool Lia PeanoNat.
From Stdlib Require Import Floats.
From Stdlib Require Import Reals Lra.
From Stdlib Require QArith Qround.
Import ListNotations.

Set Implicit Arguments.
Open Scope string_scope.
Open Scope list_scope.

(** ** The arithmetic the source uses *)

Declare Scope num_scope.
Delimit Scope num_scope with num.

Class Number (T : Type) : Type := {
  n0 : T;            (* the literal 0 *)
  n1 : T;            (* the literal 1 *)
  n2 : T;            (* the literal 2 *)
  n4 : T;            (* the literal 4 *)
  n6 : T;            (* the literal 6 *)
  n20 : T;           (* the literal 20 *)
  eps : T;           (* the literal 1e-9 *)
  nadd : T -> T -> T;
  nsub : T -> T -> T;
  nmul : T -> T -> T;
  ndiv : T -> T -> T;
  nopp : T -> T;     (* unary minus *)
  nsqrt : T -> T;    (* Math.sqrt *)
  nabs : T -> T;     (* Math.abs *)
  nltb : T -> T -> bool;   (* x < y *)
  nleb : T -> T -> bool    (* x <= y *)
}.

Infix "+" := nadd : num_scope.
Infix "-" := nsub : num_scope.
Infix "*" := nmul : num_scope.
Infix "/" := ndiv : num_scope.
Notation "- x" := (nopp x) : num_scope.
Notation "x <? y" := (nltb x y) (at level 70, no associativity) : num_scope.
Notation "x <=? y" := (nleb x y) (at level 70, no associativity) : num_scope.
(* JavaScript's [x > y] and [x >= y] *)
Notation "x >? y" := (nltb y x) (at level 70, no associativity) : num_scope.
Notation "x >=? y" := (nleb y x) (at level 70, no associativity) : num_scope.

(** IEEE 754 binary64, the arithmetic of a JavaScript [number].  The literal
    [1e-9] denotes the binary64 value nearest to it, here as in JavaScript. *)
#[local] Set Warnings "-inexact-float".
#[export] Instance Float64 : Number float := {|
  n0 := 0%float; n1 := 1%float; n2 := 2%float; n4 := 4%float;
  n6 := 6%float; n20 := 20%float; eps := 1e-9%float;
  nadd := PrimFloat.add; nsub := PrimFloat.sub;
  nmul := PrimFloat.mul; ndiv := PrimFloat.div;
  nopp := PrimFloat.opp; nsqrt := PrimFloat.sqrt; nabs := PrimFloat.abs;
  nltb := PrimFloat.ltb; nleb := PrimFloat.leb
|}.

Definition Rltb (x y : R) : bool := if Rlt_dec x y then true else false.
Definition Rleb (x y : R) : bool := if Rle_dec x y then true else false.

(** Exact real arithmetic. *)
#[export] Instance Exact : Number R := {|
  n0 := 0%R; n1 := 1%R; n2 := 2%R; n4 := 4%R;
  n6 := 6%R; n20 := 20%R; eps := (1 / 1000000000)%R;
  nadd := Rplus; nsub := Rminus;
  nmul := Rmult; ndiv := Rdiv;
  nopp := Ropp; nsqrt := R_sqrt.sqrt; nabs := Rabs;
  nltb := Rltb; nleb := Rleb
|}.

(** ** types.ts

    The fields keep the names of the interfaces, with a prefix that tells the
    record ([m_a] for [Matrix2x2.a], [p_x] for [Point.x], [v_x] for
    [ComplexVector.x]), since two records cannot share a field name. *)

Record Matrix2x2 (T : Type) : Type := mkMatrix { m_a : T; m_b : T; m_c : T; m_d : T }.
Record Point (T : Type) : Type := mkPoint { p_x : T; p_y : T }.
Record ComplexNumber (T : Type) : Type := mkComplex { re : T; im : T }.
Record ComplexVector (T : Type) : Type :=
  mkCVector { v_x : ComplexNumber T; v_y : ComplexNumber T }.

Record EquilibriumAnalysis (T : Type) : Type := mkAnalysis {
  trace : T;
  determinant : T;
  discriminant : T;
  eigenvalues : ComplexNumber T * ComplexNumber T;
  eigenvectors : option (ComplexVector T * ComplexVector T);
  classification : string;
  stability : string
}.

(** ** A counter of evaluations of the vector field

    [solveODE] calls its local closure [f] several times per iteration.  To
    speak about how often, the loop body is written in a state monad whose
    state is the number of calls of [f] made so far. *)

Definition Counted (A : Type) : Type := nat -> A * nat.

Definition ret {A} (v : A) : Counted A := fun n => (v, n).
Definition bind {A B} (c : Counted A) (k : A -> Counted B) : Counted B :=
  fun n => let (v, n') := c n in k v n'.
Definition tick {A} (v : A) : Counted A := fun n => (v, S n).

Notation "x <- c ;; k" := (bind c (fun x => k))
  (at level 61, c at next level, right associativity).

Section Solver.
Context {T : Type} {N : Number T}.
Local Open Scope num_scope.

(** *** solveODE *)

(** [const f = (p) => ({x: a*p.x + b*p.y, y: c*p.x + d*p.y})] *)
Definition f (matrix : Matrix2x2 T) (p : Point T) : Point T :=
  {| p_x := m_a matrix * p_x p + m_b matrix * p_y p;
     p_y := m_c matrix * p_x p + m_d matrix * p_y p |}.

(** A call of [f], counted. *)
Definition call_f (matrix : Matrix2x2 T) (p : Point T) : Counted (Point T) :=
  tick (f matrix p).

(** The body of the [for] loop up to the assignment of [current]. *)
Definition rk4 (matrix : Matrix2x2 T) (h : T) (current : Point T)
  : Counted (Point T) :=
  k1 <- call_f matrix current ;;
  k2 <- call_f matrix {| p_x := p_x current + (h / n2) * p_x k1;
                         p_y := p_y current + (h / n2) * p_y k1 |} ;;
  k3 <- call_f matrix {| p_x := p_x current + (h / n2) * p_x k2;
                         p_y := p_y current + (h / n2) * p_y k2 |} ;;
  k4 <- call_f matrix {| p_x := p_x current + h * p_x k3;
                         p_y := p_y current + h * p_y k3 |} ;;
  ret {| p_x := p_x current
                + (h / n6) * (p_x k1 + n2 * p_x k2 + n2 * p_x k3 + p_x k4);
         p_y := p_y current
                + (h / n6) * (p_y k1 + n2 * p_y k2 + n2 * p_y k3 + p_y k4) |}.

(** [Math.abs(current.x) > 20 || Math.abs(current.y) > 20] *)
Definition diverged (p : Point T) : bool :=
  (nabs (p_x p) >? n20) || (nabs (p_y p) >? n20).

(** The [for] loop with [remaining] iterations left: [break] returns the
    points pushed so far. *)
Fixpoint loop (matrix : Matrix2x2 T) (h : T) (remaining : nat)
    (current : Point T) (points : list (Point T)) : Counted (list (Point T)) :=
  match remaining with
  | O => ret points
  | S remaining' =>
      next <- rk4 matrix h current ;;
      if diverged next then ret points
      else loop matrix h remaining' next (points ++ [next])
  end.

Definition solveODE_counted (matrix : Matrix2x2 T) (initial : Point T)
    (steps : nat) (dt : T) (forward : bool) : Counted (list (Point T)) :=
  let points := [initial] in
  let current := initial in
  let direction := if forward then n1 else - n1 in
  let h := dt * direction in
  loop matrix h steps current points.

(** [solveODE(matrix, initial, steps, dt, forward)]: the returned array. *)
Definition solveODE (matrix : Matrix2x2 T) (initial : Point T)
    (steps : nat) (dt : T) (forward : bool) : list (Point T) :=
  fst (solveODE_counted matrix initial steps dt forward 0).

(** The number of evaluations of [f] a call of [solveODE] makes. *)
Definition solveODE_calls (matrix : Matrix2x2 T) (initial : Point T)
    (steps : nat) (dt : T) (forward : bool) : nat :=
  snd (solveODE_counted matrix initial steps dt forward 0).

(** *** getEigenvector *)

Definition real (r : T) : ComplexNumber T := {| re := r; im := n0 |}.

Definition getEigenvector (m : Matrix2x2 T) (ev : T) : ComplexVector T :=
  let row1_a := m_a m - ev in
  let row1_b := m_b m in
  if nabs row1_b >? eps then
    let mag := nsqrt (row1_b * row1_b + row1_a * row1_a) in
    {| v_x := real (- row1_b / mag); v_y := real (row1_a / mag) |}
  else if nabs row1_a >? eps then
    {| v_x := real n0; v_y := real n1 |}
  else
    let row2_c := m_c m in
    let row2_d := m_d m - ev in
    if nabs row2_c >? eps then
      let xVal := - row2_d / row2_c in
      let mag := nsqrt (xVal * xVal + n1) in
      {| v_x := real (xVal / mag); v_y := real (n1 / mag) |}
    else
      {| v_x := real n1; v_y := real n0 |}.

(** *** analyzeMatrix *)

(** The two mutable labels of [analyzeMatrix] and the [if] chain that
    assigns them; a [let] that shadows a name is an assignment to it. *)
Definition assign_labels (tr det disc : T) : string * string :=
  let classification := "Unknown" in
  let stability := "Neutral" in
  if det <? n0 then
    let classification := "Saddle Point" in
    let stability := "Unstable" in
    (classification, stability)
  else if det >? n0 then
    if disc >? n0 then
      let classification := "Node" in
      let stability :=
        if tr >? n0 then "Unstable (Source)" else "Stable (Sink)" in
      (classification, stability)
    else if disc <? n0 then
      if nabs tr <? eps then
        let classification := "Center" in
        let stability := "Neutrally Stable" in
        (classification, stability)
      else
        let classification := "Spiral Point" in
        let stability :=
          if tr >? n0 then "Unstable (Spiral Source)"
          else "Stable (Spiral Sink)" in
        (classification, stability)
    else
      let classification := "Proper/Improper Node" in
      let stability := if tr >? n0 then "Unstable" else "Stable" in
      (classification, stability)
  else
    let classification := "Degenerate (Non-isolated)" in
    let stability := "Marginally Stable" in
    (classification, stability).

Definition analyzeMatrix (m : Matrix2x2 T) : EquilibriumAnalysis T :=
  let tr := m_a m + m_d m in
  let det := m_a m * m_d m - m_b m * m_c m in
  let disc := tr * tr - n4 * det in
  let '(eigenvalues, eigenvectors) :=
    if disc >=? n0 then
      let r1 := (tr + nsqrt disc) / n2 in
      let r2 := (tr - nsqrt disc) / n2 in
      ((real r1, real r2),
       Some (getEigenvector m r1, getEigenvector m r2))
    else
      let re := tr / n2 in
      let im := nsqrt (- disc) / n2 in
      (({| re := re; im := im |}, {| re := re; im := - im |}), None) in
  let '(classification, stability) := assign_labels tr det disc in
  {| trace := tr;
     determinant := det;
     discriminant := disc;
     eigenvalues := eigenvalues;
     eigenvectors := eigenvectors;
     classification := classification;
     stability := stability |}.

End Solver.

(** ** Vocabulary of the specification *)

Section Vocabulary.
Context {T : Type} {N : Number T}.
Local Open Scope num_scope.

(** Points as plane vectors. *)
Definition vadd (p q : Point T) : Point T :=
  {| p_x := p_x p + p_x q; p_y := p_y p + p_y q |}.
Definition vscale (s : T) (p : Point T) : Point T :=
  {| p_x := s * p_x p; p_y := s * p_y p |}.

(** The classic four-stage Runge-Kutta step, as the specification
    writes it: [next = current + (h/6)(k1 + 2 k2 + 2 k3 + k4)]. *)
Definition rk4_step (matrix : Matrix2x2 T) (h : T) (current : Point T) : Point T :=
  let k1 := f matrix current in
  let k2 := f matrix (vadd current (vscale (h / n2) k1)) in
  let k3 := f matrix (vadd current (vscale (h / n2) k2)) in
  let k4 := f matrix (vadd current (vscale h k3)) in
  vadd current
    (vscale (h / n6) (vadd (vadd (vadd k1 (vscale n2 k2)) (vscale n2 k3)) k4)).

(** The points the loop pushes after [initial]: successive Runge-Kutta
    steps from [current], up to the first one that leaves the window. *)
Fixpoint trail (matrix : Matrix2x2 T) (h : T) (remaining : nat)
    (current : Point T) : list (Point T) :=
  match remaining with
  | O => []
  | S remaining' =>
      let next := rk4_step matrix h current in
      if diverged next then [] else next :: trail matrix h remaining' next
  end.

(** [chain step p l]: every element of [l] is [step] of the one before
    it, the first one of [p]. *)
Fixpoint chain (step : Point T -> Point T) (p : Point T) (l : list (Point T)) : Prop :=
  match l with
  | [] => True
  | q :: l' => q = step p /\ chain step q l'
  end.

(** The step increment [h] of a run, as [solveODE] computes it. *)
Definition increment (dt : T) (forward : bool) : T :=
  dt * (if forward then n1 else - n1).

(** Trace, determinant and discriminant of a matrix. *)
Definition tr_of (m : Matrix2x2 T) : T := m_a m + m_d m.
Definition det_of (m : Matrix2x2 T) : T := m_a m * m_d m - m_b m * m_c m.
Definition disc_of (m : Matrix2x2 T) : T :=
  tr_of m * tr_of m - n4 * det_of m.

(** The two rows of [(M - lambda I) v], for a vector with real
    components [vx], [vy]. *)
Definition residual (m : Matrix2x2 T) (lambda vx vy : T) : T * T :=
  ((m_a m - lambda) * vx + m_b m * vy,
   m_c m * vx + (m_d m - lambda) * vy).

(** Sum and product of complex numbers. *)
Definition cadd (z w : ComplexNumber T) : ComplexNumber T :=
  {| re := re z + re w; im := im z + im w |}.
Definition cmul (z w : ComplexNumber T) : ComplexNumber T :=
  {| re := re z * re w - im z * im w; im := re z * im w + im z * re w |}.

(** The six classification tags and the eight stability tags that
    [analyzeMatrix] assigns. *)
Definition classification_tags : list string :=
  ["Saddle Point"; "Node"; "Center"; "Spiral Point";
   "Proper/Improper Node"; "Degenerate (Non-isolated)"].
Definition stability_tags : list string :=
  ["Unstable"; "Unstable (Source)"; "Stable (Sink)"; "Neutrally Stable";
   "Unstable (Spiral Source)"; "Stable (Spiral Sink)"; "Stable";
   "Marginally Stable"].
End Vocabulary.

(** A binary64 coordinate that passes the test of the cutoff: its absolute
    value is at most 20, or it is a NaN (which no comparison rejects). *)
Definition in_window (x : float) : Prop :=
  (abs x <=? 20)%float = true \/ x = nan.

(** A float that is [+infinity] or a positive finite number of magnitude
    at least [M]. *)
Definition positive_result (Y : spec_float) (M : Z) : Prop :=
  Y = S754_infinity false
  \/ exists m e, Y = S754_finite false m e
                 /\ (M <= Zpos (digits2_pos m) + e)%Z.

(** The entries that [getEigenvector] treats as zero because their absolute
    value is at most [1e-9] are zero indeed: [b] in the branch that returns
    [(0, 1)], and [a - lambda] and [c] in the branch that returns [(1, 0)]. *)
Definition negligible_are_zero (m : Matrix2x2 R) (lambda : R) : Prop :=
  ((Rabs (m_b m) <= 1 / 1000000000 ->
    1 / 1000000000 < Rabs (m_a m - lambda) -> m_b m = 0)
   /\ (Rabs (m_b m) <= 1 / 1000000000 ->
       Rabs (m_a m - lambda) <= 1 / 1000000000 ->
       Rabs (m_c m) <= 1 / 1000000000 ->
       m_a m - lambda = 0 /\ m_c m = 0))%R.

(** In exact arithmetic: [v] has real components and Euclidean norm 1, it
    solves the first row of [(M - lambda I) v = 0] up to [1e-9], and the
    whole system when the neglected entries are zero. *)
Definition unit_eigenvector (m : Matrix2x2 R) (lambda : R)
    (v : ComplexVector R) : Prop :=
  (im (v_x v) = 0 /\ im (v_y v) = 0
   /\ re (v_x v) * re (v_x v) + re (v_y v) * re (v_y v) = 1
   /\ Rabs (fst (residual m lambda (re (v_x v)) (re (v_y v))))
      <= 1 / 1000000000
   /\ (negligible_are_zero m lambda ->
       residual m lambda (re (v_x v)) (re (v_y v)) = (0, 0)))%R.

(** ** Sample inputs *)

(** dx/dt = x, dy/dt = y: every trajectory leaves the window. *)
Definition star_source : Matrix2x2 float :=
  {| m_a := 1; m_b := 0; m_c := 0; m_d := 1 |}%float.

Definition saddle : Matrix2x2 float := (mkMatrix 1 0 0 (-1))%float.
Definition unstable_node : Matrix2x2 float := (mkMatrix 2 0 0 1)%float.
Definition stable_node : Matrix2x2 float := (mkMatrix (-2) 0 0 (-1))%float.
Definition center : Matrix2x2 float := (mkMatrix 0 (-2) 2 0)%float.
Definition spiral_source : Matrix2x2 float := (mkMatrix 1 (-2) 2 1)%float.
Definition spiral_sink : Matrix2x2 float := (mkMatrix (-1) (-2) 2 (-1))%float.
Definition stable_star : Matrix2x2 float := (mkMatrix (-1) 0 0 (-1))%float.
Definition zero_matrix : Matrix2x2 float := (mkMatrix 0 0 0 0)%float.

Definition nearly_triangular : Matrix2x2 float := (mkMatrix 1 1e-10 0 2)%float.
Definition stiff : Matrix2x2 float := (mkMatrix 1 1e-10 1e10 2)%float.

(** Finite entries, but [b * b] overflows. *)
Definition overflowing : Matrix2x2 float := (mkMatrix 1 1e200 0 2)%float.

Definition nearly_triangular_exact : Matrix2x2 R :=
  (mkMatrix 1 (1 / 10000000000) 0 2)%R.

(** A diagonal matrix, where nothing is neglected. *)
Definition diagonal_exact : Matrix2x2 R := (mkMatrix 2 0 0 1)%R.

(** ** The callers: App.tsx and components/PhasePortrait.tsx *)

(** The literals of the callers that [Number] does not list, and their
    strict equality [x === y]. *)
Class PlotNumber (T : Type) : Type := {
  n003 : T;                 (* the literal 0.03 *)
  n5 : T;                   (* the literal 5 *)
  n15 : T;                  (* the literal 15 *)
  neqb : T -> T -> bool     (* x === y *)
}.

#[export] Instance PlotFloat64 : PlotNumber float := {|
  n003 := 0.03%float; n5 := 5%float; n15 := 15%float;
  neqb := PrimFloat.eqb
|}.

(** [types.ts]: a plotted trajectory. *)
Record Trajectory (T : Type) : Type := mkTrajectory {
  t_id : string;
  t_points : list (Point T);
  t_initial : Point T;
  t_color : string
}.

(** [l.slice(-n)]: the last [n] elements, all of them when there are
    fewer. *)
Definition slice_last {A : Type} (n : nat) (l : list A) : list A :=
  skipn (length l - n) l.

Section App.
Context {T : Type} {N : Number T} {P : PlotNumber T}.

(** [fullPoints] of [handleAddTrajectory]:
    [[...[...backward].reverse(), ...forward.slice(1)]]. *)
Definition fullPoints (matrix : Matrix2x2 T) (initial : Point T)
  : list (Point T) :=
  let forward := solveODE matrix initial 300 n003 true in
  let backward := solveODE matrix initial 300 n003 false in
  rev backward ++ tl forward.

(** [handleAddTrajectory], as the update of the list of trajectories.
    The identifier and the colour come from [Math.random()] and are
    inputs here. *)
Definition handleAddTrajectory (matrix : Matrix2x2 T) (id color : string)
    (initial : Point T) (prev : list (Trajectory T)) : list (Trajectory T) :=
  let newTraj := {| t_id := id;
                    t_points := fullPoints matrix initial;
                    t_initial := initial;
                    t_color := color |} in
  slice_last 9 prev ++ [newTraj].

End App.

(** JavaScript's [x || 0] on a number: [x], unless it is falsy, that is
    0, -0 or NaN. *)
Definition or_zero (x : float) : float :=
  if ((x =? 0) || is_nan x)%float then 0%float else x.

(** The four text fields of the matrix and their names. *)
Record MatrixInputs : Type := mkInputs {
  in_a : string; in_b : string; in_c : string; in_d : string
}.
Inductive Key : Type := Ka | Kb | Kc | Kd.

Definition get_input (key : Key) (inputs : MatrixInputs) : string :=
  match key with
  | Ka => in_a inputs | Kb => in_b inputs
  | Kc => in_c inputs | Kd => in_d inputs
  end.

(** [{ ...prev, [key]: val }] *)
Definition set_input (key : Key) (val : string) (prev : MatrixInputs)
  : MatrixInputs :=
  match key with
  | Ka => {| in_a := val; in_b := in_b prev; in_c := in_c prev; in_d := in_d prev |}
  | Kb => {| in_a := in_a prev; in_b := val; in_c := in_c prev; in_d := in_d prev |}
  | Kc => {| in_a := in_a prev; in_b := in_b prev; in_c := val; in_d := in_d prev |}
  | Kd => {| in_a := in_a prev; in_b := in_b prev; in_c := in_c prev; in_d := val |}
  end.

Definition get_entry (key : Key) (m : Matrix2x2 float) : float :=
  match key with
  | Ka => m_a m | Kb => m_b m | Kc => m_c m | Kd => m_d m
  end.

(** The state of [App]. *)
Record AppState : Type := mkState {
  matrixInputs : MatrixInputs;
  trajectories : list (Trajectory float)
}.

Section AppText.
(** [parseFloat] and [Number.prototype.toString] are the engine's. *)
Variable parseFloat : string -> float.
Variable toString : float -> string.

(** The numeric matrix that [App] derives from the text fields. *)
Definition matrix_of (inputs : MatrixInputs) : Matrix2x2 float :=
  {| m_a := or_zero (parseFloat (in_a inputs));
     m_b := or_zero (parseFloat (in_b inputs));
     m_c := or_zero (parseFloat (in_c inputs));
     m_d := or_zero (parseFloat (in_d inputs)) |}.

Definition handleInputChange (key : Key) (val : string) (st : AppState)
  : AppState :=
  {| matrixInputs := set_input key val (matrixInputs st);
     trajectories :=
       if negb (is_nan (parseFloat val)) then [] else trajectories st |}.

Definition formatTerm (coeff variable : string) (isFirst : bool) : string :=
  let val := parseFloat coeff in
  if (val =? 0)%float then ""
  else
    let sign :=
      if (0 <? val)%float then (if isFirst then "" else " + ")
      else (if isFirst then "-" else " - ") in
    let absoluteVal := abs val in
    let displayCoeff :=
      if (absoluteVal =? 1)%float then "" else toString absoluteVal in
    sign ++ displayCoeff ++ variable.

End AppText.

(** [s.includes(sub)] *)
Definition includes (sub s : string) : bool :=
  match index 0 sub s with Some _ => true | None => false end.

(** The colour class of the stability line of [App]. *)
Definition stability_class {T : Type} (analysis : EquilibriumAnalysis T)
  : string :=
  if includes "Unstable" (stability analysis) then "text-rose-500"
  else "text-emerald-600".

(** Whether [App] prints the part [+- |im| i] of an eigenvalue:
    [ev.im !== 0]. *)
Definition shows_imaginary (ev : ComplexNumber float) : bool :=
  negb (im ev =? 0)%float.

(** *** components/PhasePortrait.tsx *)

(** [Math.floor(length * q)] for the length of an array.  The product and
    its floor are computed on rationals: 0.25, 0.5 and 0.75 are binary
    fractions, so that binary64 computes them exactly too, for every length
    an array can have. *)
Module ArrowIndex.
Import QArith Qround.

Definition floor_times (len : nat) (q : Q) : nat :=
  Z.to_nat (Qfloor (inject_Z (Z.of_nat len) * q)).

(** [[Math.floor(n * 0.25), Math.floor(n * 0.5), Math.floor(n * 0.75)]] *)
Definition indices (len : nat) : list nat :=
  [ floor_times len 0.25; floor_times len 0.5; floor_times len 0.75 ].

End ArrowIndex.

Record GridPoint (T : Type) : Type := mkGridPoint {
  g_x : T; g_y : T; g_dx : T; g_dy : T; g_angle : T; g_length : T
}.

Record ArrowHead (T : Type) : Type := mkArrowHead {
  h_x : T; h_y : T; h_angle : T
}.

Section Portrait.
Context {T : Type} {N : Number T} {P : PlotNumber T}.
Local Open Scope num_scope.
(** [Math.atan2] and the two d3 scales are the libraries'. *)
Variable atan2 : T -> T -> T.
Variable xScale : T -> T.
Variable yScale : T -> T.

Definition range : T := n5.

(** [for (let i = 0; i <= steps; i++) body(i)], the counter being a
    number that [i++] increments.  [fuel] bounds the iterations: the
    result is [None] when it runs out before the condition fails. *)
Fixpoint for_upto {S : Type} (fuel : nat) (i steps : T)
    (body : T -> S -> option S) (acc : S) : option S :=
  match fuel with
  | O => None
  | Datatypes.S fuel' =>
      if i <=? steps then
        match body i acc with
        | Some acc' => for_upto fuel' (i + n1) steps body acc'
        | None => None
        end
      else Some acc
  end.

(** The record pushed for the lattice point [(x, y)]. *)
Definition gridPoint (matrix : Matrix2x2 T) (x y : T) : GridPoint T :=
  let dx := m_a matrix * x + m_b matrix * y in
  let dy := m_c matrix * x + m_d matrix * y in
  let mag := nsqrt (dx * dx + dy * dy) in
  {| g_x := x; g_y := y;
     g_dx := if neqb mag n0 then n0 else dx / mag;
     g_dy := if neqb mag n0 then n0 else dy / mag;
     g_angle := atan2 dy dx;
     g_length := mag |}.

Definition gridPoints (fuel : nat) (matrix : Matrix2x2 T)
  : option (list (GridPoint T)) :=
  let points := [] in
  let steps := n15 in
  let stepSize := (n2 * range) / steps in
  for_upto fuel n0 steps
    (fun i points =>
       for_upto fuel n0 steps
         (fun j points =>
            let x := - range + i * stepSize in
            let y := - range + j * stepSize in
            Some (points ++ [gridPoint matrix x y]))
         points)
    points.

Definition arrowHead (p1 p2 : Point T) : ArrowHead T :=
  let screenX1 := xScale (p_x p1) in
  let screenY1 := yScale (p_y p1) in
  let screenX2 := xScale (p_x p2) in
  let screenY2 := yScale (p_y p2) in
  let angle := atan2 (screenY2 - screenY1) (screenX2 - screenX1) in
  {| h_x := screenX1; h_y := screenY1; h_angle := angle |}.

Definition getArrowHeads (traj : Trajectory T) : list (ArrowHead T) :=
  let pts := t_points traj in
  if (length pts <? 10)%nat then []
  else
    let indices := ArrowIndex.indices (length pts) in
    flat_map
      (fun idx =>
         match nth_error pts idx,
               nth_error pts (Nat.min (idx + 5) (length pts - 1)) with
         | Some p1, Some p2 => [arrowHead p1 p2]
         | _, _ => []
         end)
      indices.

End Portrait.

(** *** Vocabulary for the callers *)

(** The value of a loop counter after [k] increments [i++] from 0, and
    the lattice coordinate [-range + i * stepSize] of [gridPoints] for
    that counter. *)
Definition counter {T : Type} {N : Number T} (k : nat) : T :=
  Nat.iter k (fun i => i + n1)%num n0.

Definition coordinate {T : Type} {N : Number T} {P : PlotNumber T}
    (k : nat) : T :=
  (- range + counter k * ((n2 * range) / n15))%num.

(** [head_at arrow pts i h]: [h] is the arrow head [arrow p q] of the
    point [p] of index [i] and a later point [q], five places further or
    the last one. *)
Definition head_at {T H : Type} (arrow : Point T -> Point T -> H)
    (pts : list (Point T)) (i : nat) (h : H) : Prop :=
  exists p q,
    nth_error pts i = Some p
    /\ nth_error pts (Nat.min (i + 5) (length pts - 1)) = Some q
    /\ i < Nat.min (i + 5) (length pts - 1)
    /\ h = arrow p q.

(** The origin, and the matrices all of whose entries are finite numbers
    ([Number.isFinite]). *)
Definition origin : Point float := {| p_x := 0; p_y := 0 |}%float.

Definition finite_matrix (m : Matrix2x2 float) : bool :=
  is_finite (m_a m) && is_finite (m_b m)
  && is_finite (m_c m) && is_finite (m_d m).

(** ** Facts about binary64 arithmetic

    Derived from the specification of the primitive floats
    ([FloatAxioms], over [SpecFloat]). *)

Module Float64Facts.

Lemma SFcompare_swap (x y : spec_float) :
  SFcompare y x = option_map CompOpp (SFcompare x y).
Proof.
  destruct x as [sx|sx| |sx mx ex], y as [sy|sy| |sy my ey]; simpl;
    try (destruct sx); try (destruct sy); try reflexivity;
    rewrite (Z.compare_antisym ey ex); destruct (ey ?= ex)%Z; simpl;
    try reflexivity;
    change (Pos.compare_cont Eq my mx) with (my ?= mx)%positive;
    change (Pos.compare_cont Eq mx my) with (mx ?= my)%positive;
    rewrite (Pos.compare_antisym my mx);
    destruct (my ?= mx)%positive; reflexivity.
Qed.

Ltac by_compare x y :=
  rewrite ?eqb_spec, ?ltb_spec, ?leb_spec; unfold SFltb, SFleb, SFeqb;
  rewrite (SFcompare_swap (Prim2SF x) (Prim2SF y));
  destruct (SFcompare (Prim2SF x) (Prim2SF y)) as [[]|]; simpl;
  repeat split; congruence.

Lemma ltb_asym (x y : float) : (x <? y)%float = true -> (y <? x)%float = false.
Proof. by_compare x y. Qed.

Lemma ltb_not_leb (x y : float) : (x <? y)%float = true -> (y <=? x)%float = false.
Proof. by_compare x y. Qed.

Lemma leb_not_ltb (x y : float) : (x <=? y)%float = true -> (y <? x)%float = false.
Proof. by_compare x y. Qed.

Lemma eqb_not_ltb (x y : float) :
  (x =? y)%float = true -> (x <? y)%float = false /\ (y <? x)%float = false.
Proof. by_compare x y. Qed.

(** Only a NaN is incomparable. *)
Lemma SFcompare_None (x y : spec_float) :
  SFcompare x y = None -> x = S754_nan \/ y = S754_nan.
Proof.
  destruct x as [sx|sx| |sx mx ex], y as [sy|sy| |sy my ey]; simpl; auto;
    try destruct sx; try destruct sy; discriminate.
Qed.

Lemma Prim2SF_nan (x : float) : Prim2SF x = S754_nan -> x = nan.
Proof. intros H. apply Prim2SF_inj. now rewrite H. Qed.

(** [!(Math.abs(x) > y)] leaves [Math.abs(x) <= y] or a NaN. *)
Lemma not_gtb_abs (x y : float) :
  (y <? abs x)%float = false ->
  (abs x <=? y)%float = true \/ x = nan \/ y = nan.
Proof.
  rewrite ltb_spec, leb_spec. unfold SFltb, SFleb.
  rewrite (SFcompare_swap (Prim2SF y) (Prim2SF (abs x))).
  destruct (SFcompare (Prim2SF y) (Prim2SF (abs x))) as [[]|] eqn:E;
    simpl; auto; try discriminate.
  intros _. right. apply SFcompare_None in E. destruct E as [E|E].
  - right. now apply Prim2SF_nan.
  - left. rewrite abs_spec in E. apply Prim2SF_nan.
    destruct (Prim2SF x); simpl in E; try discriminate. reflexivity.
Qed.

(** Multiplying a mantissa by [2^52] and rounding at an exponent lowered
    by 52 gives the mantissa back: the product with 1 or -1 is exact. *)
Lemma round_times_2p52 (s : bool) (m : positive) (e : Z) :
  SpecFloat.bounded prec emax m e = true ->
  binary_round_aux prec emax s (Zpos (m * 4503599627370496)) (e + -52) loc_Exact
  = S754_finite s m e.
Proof.
  unfold SpecFloat.bounded, canonical_mantissa. intros H.
  apply andb_prop in H. destruct H as [Hc Hb].
  apply Z.eqb_eq in Hc.
  assert (Hf : forall z, z = (Z.pos (digits2_pos m) + e)%Z ->
                         fexp prec emax z = e)
    by (intros z ->; exact Hc).
  rewrite Pos.mul_comm. cbn [Pos.mul].
  unfold binary_round_aux, shr_fexp.
  cbn [Zdigits2 digits2_pos].
  rewrite !Pos2Z.inj_succ.
  rewrite Hf by lia.
  replace (e - (e + -52))%Z with 52%Z by lia.
  cbn [shr shr_record_of_loc SpecFloat.iter_pos shr_1 orb shr_m loc_of_shr_record
       round_nearest_even Zdigits2].
  replace (e + -52 + 52)%Z with e by lia.
  rewrite Hf by reflexivity.
  replace (e - e)%Z with 0%Z by lia. cbn [shr shr_m].
  now rewrite Hb.
Qed.

Lemma SFmul_unit (X : spec_float) (sy : bool) :
  valid_binary X = true ->
  SF64mul X (S754_finite sy 4503599627370496 (-52))
  = if sy then SFopp X else X.
Proof.
  intros V. destruct X as [s|s| |s m e]; unfold SF64mul, SFmul.
  - destruct s, sy; reflexivity.
  - destruct s, sy; reflexivity.
  - destruct sy; reflexivity.
  - rewrite round_times_2p52 by exact V. destruct s, sy; reflexivity.
Qed.

Lemma mul_one (x : float) : (x * 1)%float = x.
Proof.
  apply Prim2SF_inj. rewrite mul_spec.
  change (Prim2SF 1) with (S754_finite false 4503599627370496 (-52)).
  now rewrite SFmul_unit by apply Prim2SF_valid.
Qed.

Lemma mul_minus_one (x : float) : (x * -1)%float = (- x)%float.
Proof.
  apply Prim2SF_inj. rewrite mul_spec, opp_spec.
  change (Prim2SF (-1)) with (S754_finite true 4503599627370496 (-52)).
  now rewrite SFmul_unit by apply Prim2SF_valid.
Qed.

(** *** Positivity of a rounded result *)

Local Open Scope Z_scope.

(** Number of binary digits of a positive integer. *)
Lemma digits2_log2 (p : positive) :
  Zpos (digits2_pos p) = Z.log2 (Zpos p) + 1.
Proof.
  assert (S : forall q, digits2_pos q = Pos.size q)
    by (induction q; cbn; congruence).
  destruct p; cbn [digits2_pos Z.log2]; rewrite ?S; lia.
Qed.

Lemma Zdigits2_log2 (z : Z) : 0 < z -> Zdigits2 z = Z.log2 z + 1.
Proof. destruct z; try lia. intros _. apply digits2_log2. Qed.

Lemma shr_1_m (r : shr_record) :
  0 <= shr_m r -> shr_m (shr_1 r) = shr_m r / 2.
Proof.
  destruct r as [m r s]. cbn [shr_m]. intros H.
  rewrite <- Z.div2_div.
  destruct m as [|p|p]; [reflexivity|destruct p; reflexivity|lia].
Qed.

Lemma iter_shr_1_m (n : positive) :
  forall r, 0 <= shr_m r ->
            shr_m (SpecFloat.iter_pos shr_1 n r) = shr_m r / 2 ^ Zpos n.
Proof.
  induction n as [n IH|n IH|]; intros r H; cbn [SpecFloat.iter_pos].
  - assert (H1 : 0 <= shr_m (shr_1 r))
      by (rewrite shr_1_m by exact H; apply Z.div_pos; lia).
    assert (H2 : 0 <= shr_m (SpecFloat.iter_pos shr_1 n (shr_1 r)))
      by (rewrite IH by exact H1; apply Z.div_pos; lia).
    rewrite IH by exact H2. rewrite IH by exact H1. rewrite shr_1_m by exact H.
    rewrite !Z.div_div by lia. f_equal.
    replace (Z.pos n~1) with (1 + Z.pos n + Z.pos n) by lia.
    rewrite !Z.pow_add_r by lia. change (2 ^ 1) with 2. lia.
  - assert (H2 : 0 <= shr_m (SpecFloat.iter_pos shr_1 n r))
      by (rewrite IH by exact H; apply Z.div_pos; lia).
    rewrite IH by exact H2. rewrite IH by exact H.
    rewrite !Z.div_div by lia. f_equal.
    replace (Z.pos n~0) with (Z.pos n + Z.pos n) by lia.
    rewrite !Z.pow_add_r by lia. lia.
  - rewrite shr_1_m by exact H. reflexivity.
Qed.

Lemma shr_record_of_loc_m (z : Z) (l : location) :
  shr_m (shr_record_of_loc z l) = z.
Proof. destruct l as [|[]]; reflexivity. Qed.

(** Shifting a mantissa to its canonical exponent keeps it positive and
    keeps its magnitude, when the value is not below the smallest positive
    number. *)
Lemma shr_fexp_positive (z ez : Z) (l : location) :
  0 < z ->
  -1074 < Zdigits2 z + ez ->
  0 < shr_m (fst (shr_fexp prec emax z ez l))
  /\ Zdigits2 (shr_m (fst (shr_fexp prec emax z ez l)))
     + snd (shr_fexp prec emax z ez l)
     = Zdigits2 z + ez.
Proof.
  intros Hz Hmag. unfold shr_fexp, shr.
  rewrite (Zdigits2_log2 Hz) in *.
  assert (Hn : fexp prec emax (Z.log2 z + 1 + ez) - ez < Z.log2 z + 1).
  { unfold fexp, SpecFloat.emin, prec, emax. lia. }
  destruct (fexp prec emax (Z.log2 z + 1 + ez) - ez) as [|k|k] eqn:E;
    cbn [fst snd]; rewrite ?shr_record_of_loc_m;
    try (split; [exact Hz|rewrite (Zdigits2_log2 Hz); reflexivity]).
  rewrite iter_shr_1_m by (rewrite shr_record_of_loc_m; lia).
  rewrite shr_record_of_loc_m.
  assert (Hk : Z.pos k <= Z.log2 z) by lia.
  assert (Hpow : 2 ^ Z.pos k <= z).
  { transitivity (2 ^ Z.log2 z).
    - apply Z.pow_le_mono_r; lia.
    - apply Z.log2_spec. exact Hz. }
  assert (Hq : 0 < z / 2 ^ Z.pos k).
  { apply Z.div_str_pos. split; [apply Z.pow_pos_nonneg; lia|exact Hpow]. }
  split; [exact Hq|].
  rewrite (Zdigits2_log2 Hq).
  rewrite <- Z.shiftr_div_pow2 by lia.
  rewrite Z.log2_shiftr by exact Hz. lia.
Qed.

Lemma round_nearest_even_bounds (m : Z) (l : location) :
  m <= round_nearest_even m l <= m + 1.
Proof. destruct l as [|[]]; cbn; try destruct (Z.even m); lia. Qed.

(** Rounding a positive value that is not below the smallest positive
    number gives a positive number of at least the same magnitude. *)
Lemma binary_round_aux_positive (z ez : Z) (l : location) :
  0 < z ->
  -1074 < Zdigits2 z + ez ->
  positive_result (binary_round_aux prec emax false z ez l) (Zdigits2 z + ez).
Proof.
  intros Hz Hmag. unfold binary_round_aux.
  destruct (@shr_fexp_positive z ez l Hz Hmag) as [H1 H2].
  destruct (shr_fexp prec emax z ez l) as [mrs' e'] eqn:E1.
  cbn [fst snd] in H1, H2.
  pose proof (round_nearest_even_bounds (shr_m mrs') (loc_of_shr_record mrs'))
    as Hr.
  set (z2 := round_nearest_even (shr_m mrs') (loc_of_shr_record mrs')) in *.
  assert (Hz2 : 0 < z2) by lia.
  assert (Hd : Zdigits2 (shr_m mrs') <= Zdigits2 z2).
  { rewrite (Zdigits2_log2 H1), (Zdigits2_log2 Hz2).
    apply Z.add_le_mono_r, Z.log2_le_mono. lia. }
  assert (Hmag2 : -1074 < Zdigits2 z2 + e') by lia.
  destruct (@shr_fexp_positive z2 e' loc_Exact Hz2 Hmag2) as [H3 H4].
  destruct (shr_fexp prec emax z2 e' loc_Exact) as [mrs'' e''] eqn:E2.
  cbn [fst snd] in H3, H4.
  destruct (shr_m mrs'') as [|p|p]; try lia.
  destruct (e'' <=? emax - prec).
  - right. exists p, e''. split; [reflexivity|]. cbn [Zdigits2] in H4. lia.
  - left. reflexivity.
Qed.

Lemma positive_result_weaken (Y : spec_float) (M M' : Z) :
  M' <= M -> positive_result Y M -> positive_result Y M'.
Proof.
  intros H [->|(m & e & -> & Hm)]; [left; reflexivity|].
  right. exists m, e. split; [reflexivity|lia].
Qed.

(** A valid finite float has an exponent of at least [emin]. *)
Lemma bounded_exponent (m : positive) (e : Z) :
  SpecFloat.bounded prec emax m e = true -> -1074 <= e.
Proof.
  unfold SpecFloat.bounded, canonical_mantissa. intros H.
  apply andb_prop in H. destruct H as [Hc _]. apply Z.eqb_eq in Hc.
  unfold fexp, SpecFloat.emin, prec, emax in Hc. lia.
Qed.

(** The square root of a positive finite float is a positive float of
    magnitude at least -536. *)
Lemma SFsqrt_positive (m : positive) (e : Z) :
  SpecFloat.bounded prec emax m e = true ->
  positive_result (SF64sqrt (S754_finite false m e)) (-536).
Proof.
  intros Hb. apply bounded_exponent in Hb.
  unfold SF64sqrt, SFsqrt, SFsqrt_core_binary.
  cbn [Zdigits2]. rewrite !Z.div2_div.
  set (d := Z.pos (digits2_pos m)).
  assert (Hd : 1 <= d) by (subst d; lia).
  set (e' := Z.min (fexp prec emax ((d + e + 1) / 2)) (e / 2)).
  assert (He' : 2 * e' <= e).
  { pose proof (Z.le_min_r (fexp prec emax ((d + e + 1) / 2)) (e / 2)).
    pose proof (Z.mul_div_le e 2 ltac:(lia)). subst e'. lia. }
  set (s := e - 2 * e').
  assert (Hs : 0 <= s) by (subst s; lia).
  set (m' := match s with
             | 0 => Z.pos m
             | Z.pos _ => Z.shiftl (Z.pos m) s
             | Z.neg _ => 0
             end).
  assert (Hm' : m' = Z.pos m * 2 ^ s).
  { subst m'. destruct s as [|p|p] eqn:Es; try lia.
    rewrite Z.shiftl_mul_pow2 by lia. reflexivity. }
  assert (Hlow : 2 ^ (d - 1 + s) <= m').
  { rewrite Hm', Z.pow_add_r by lia.
    apply Z.mul_le_mono_nonneg_r; [apply Z.pow_nonneg; lia|].
    subst d. rewrite digits2_log2.
    replace (Z.log2 (Z.pos m) + 1 - 1) with (Z.log2 (Z.pos m)) by lia.
    apply Z.log2_spec. lia. }
  assert (Hpos : 0 < m').
  { eapply Z.lt_le_trans; [|exact Hlow]. apply Z.pow_pos_nonneg; lia. }
  pose proof (Z.sqrtrem_spec m' ltac:(lia)) as Hq.
  destruct (Z.sqrtrem m') as [q r].
  destruct Hq as [Hq Hr].
  assert (Es : s = e - 2 * e') by reflexivity.
  clearbody m' s e' d.
  assert (Hq0 : 0 < q).
  { destruct (Z.eq_dec q 0) as [Hq0|Hq0]; [rewrite Hq0 in Hq, Hr; lia|lia]. }
  assert (Hmag : d + s <= 2 * Zdigits2 q).
  { rewrite (Zdigits2_log2 Hq0).
    pose proof (Z.log2_nonneg q) as Hl.
    assert (Hlt : 2 ^ (d - 1 + s) < 2 ^ (2 * (Z.log2 q + 1))).
    { eapply Z.le_lt_trans; [exact Hlow|].
      rewrite Z.pow_mul_r by lia. change (2 ^ 2) with 4.
      pose proof (Z.log2_spec q Hq0) as [_ Hu].
      rewrite <- Z.add_1_r in Hu.
      replace (4 ^ (Z.log2 q + 1)) with (2 ^ (Z.log2 q + 1) * 2 ^ (Z.log2 q + 1)).
      - nia.
      - rewrite <- Z.pow_mul_l. reflexivity. }
    apply Z.pow_lt_mono_r_iff in Hlt; lia. }
  apply positive_result_weaken with (M := Zdigits2 q + e'); [lia|].
  apply binary_round_aux_positive; [exact Hq0|lia].
Qed.

(** Halving a positive finite float of magnitude above -1072 gives a
    positive float. *)
Lemma SFdiv_two_positive (m : positive) (e : Z) :
  -1072 <= Z.pos (digits2_pos m) + e ->
  positive_result
    (SF64div (S754_finite false m e)
             (S754_finite false 4503599627370496 (-51)))
    (-1073).
Proof.
  intros Hmag.
  unfold SF64div, SFdiv, SFdiv_core_binary.
  cbn [xorb Zdigits2].
  change (digits2_pos 4503599627370496) with 53%positive.
  rewrite digits2_log2 in *.
  set (L := Z.log2 (Z.pos m)) in *.
  assert (HL : 2 ^ L <= Z.pos m) by (apply Z.log2_spec; lia).
  assert (HL0 : 0 <= L) by apply Z.log2_nonneg.
  set (e' := Z.min (fexp prec emax (L + 1 + e - (53 + -51))) (e - -51)).
  assert (He' : e' <= e + 51 /\ (e' <= L + e - 54 \/ e' <= -1074)).
  { subst e'. unfold fexp, SpecFloat.emin, prec, emax. lia. }
  set (s := e - -51 - e').
  assert (Es : s = e + 51 - e') by (subst s; lia).
  set (m' := match s with
             | 0 => Z.pos m
             | Z.pos _ => Z.shiftl (Z.pos m) s
             | Z.neg _ => 0
             end).
  assert (Hm' : m' = Z.pos m * 2 ^ s).
  { subst m'. destruct s as [|p|p] eqn:E; try lia.
    rewrite Z.shiftl_mul_pow2 by lia. reflexivity. }
  clearbody m' s e'.
  assert (Hs : 52 <= L + s) by lia.
  assert (Hlog : Z.log2 m' = s + L).
  { rewrite Hm'. apply Z.log2_mul_pow2; lia. }
  assert (Hpos : 0 < m') by (rewrite Hm'; apply Z.mul_pos_pos; [lia|apply Z.pow_pos_nonneg; lia]).
  destruct (Z.div_eucl m' 4503599627370496) as [q r] eqn:E.
  assert (Hq : q = m' / 2 ^ 52) by (unfold Z.div; change (2 ^ 52) with 4503599627370496; now rewrite E).
  assert (Hge : 2 ^ 52 <= m').
  { transitivity (2 ^ Z.log2 m').
    - apply Z.pow_le_mono_r; lia.
    - apply Z.log2_spec. exact Hpos. }
  assert (Hq0 : 0 < q).
  { rewrite Hq. apply Z.div_str_pos. split; [reflexivity|exact Hge]. }
  assert (Hd : Zdigits2 q = L + s - 52 + 1).
  { rewrite (Zdigits2_log2 Hq0), Hq.
    rewrite <- Z.shiftr_div_pow2 by lia.
    rewrite Z.log2_shiftr by exact Hpos. lia. }
  apply positive_result_weaken with (M := Zdigits2 q + e'); [lia|].
  apply binary_round_aux_positive; [exact Hq0|lia].
Qed.

Lemma positive_result_gt0 (Y : spec_float) (M : Z) :
  positive_result Y M -> SFltb (S754_zero false) Y = true.
Proof. intros [->|(m & e & -> & _)]; reflexivity. Qed.

Lemma positive_cases (x : float) :
  (0 <? x)%float = true ->
  Prim2SF x = S754_infinity false
  \/ exists m e, Prim2SF x = S754_finite false m e
                 /\ SpecFloat.bounded prec emax m e = true.
Proof.
  rewrite ltb_spec. change (Prim2SF 0) with (S754_zero false).
  pose proof (Prim2SF_valid x) as V.
  destruct (Prim2SF x) as [s|s| |s m e]; unfold SFltb; cbn;
    try destruct s; try discriminate; intros _.
  - left. reflexivity.
  - right. exists m, e. split; [reflexivity|exact V].
Qed.

(** Half the square root of a positive number is positive: neither the
    root nor the halving underflows to zero. *)
Lemma sqrt_half_positive (x : float) :
  (0 <? x)%float = true -> (0 <? PrimFloat.sqrt x / 2)%float = true.
Proof.
  intros H. rewrite ltb_spec. change (Prim2SF 0) with (S754_zero false).
  rewrite div_spec, sqrt_spec.
  change (Prim2SF 2) with (S754_finite false 4503599627370496 (-51)).
  destruct (positive_cases H) as [->|(m & e & -> & Hb)]; [reflexivity|].
  destruct (@SFsqrt_positive m e Hb) as [->|(m' & e' & -> & Hm)]; [reflexivity|].
  apply positive_result_gt0 with (M := -1073).
  apply SFdiv_two_positive. lia.
Qed.

Lemma opp_negative (x : float) :
  (x <? 0)%float = true -> (0 <? - x)%float = true.
Proof.
  rewrite !ltb_spec, opp_spec. change (Prim2SF 0) with (S754_zero false).
  destruct (Prim2SF x) as [s|s| |s m e]; unfold SFltb; cbn;
    try destruct s; try discriminate; reflexivity.
Qed.

Lemma negative_opp (x : float) :
  (0 <? x)%float = true -> (- x <? 0)%float = true.
Proof.
  rewrite !ltb_spec, opp_spec. change (Prim2SF 0) with (S754_zero false).
  destruct (Prim2SF x) as [s|s| |s m e]; unfold SFltb; cbn;
    try destruct s; try discriminate; reflexivity.
Qed.

End Float64Facts.

(** ** Facts about exact real arithmetic *)

Module ExactFacts.

Lemma Rltb_true (x y : R) : Rltb x y = true <-> (x < y)%R.
Proof. unfold Rltb. destruct (Rlt_dec x y); split; intros; try lra; discriminate. Qed.

Lemma Rltb_false (x y : R) : Rltb x y = false <-> (y <= x)%R.
Proof. unfold Rltb. destruct (Rlt_dec x y); split; intros; try lra; discriminate. Qed.

Lemma Rleb_true (x y : R) : Rleb x y = true <-> (x <= y)%R.
Proof. unfold Rleb. destruct (Rle_dec x y); split; intros; try lra; discriminate. Qed.

Lemma Rleb_false (x y : R) : Rleb x y = false <-> (y < x)%R.
Proof. unfold Rleb. destruct (Rle_dec x y); split; intros; try lra; discriminate. Qed.

End ExactFacts.

(** ** The loop of [solveODE], in any arithmetic *)

Section LoopFacts.
Context {T : Type} {N : Number T}.
Variable matrix : Matrix2x2 T.
Variable h : T.

(** One iteration computes [rk4_step] and calls [f] four times. *)
Lemma rk4_run (current : Point T) (calls : nat) :
  rk4 matrix h current calls = (rk4_step matrix h current, 4 + calls).
Proof. reflexivity. Qed.

(** The loop, one iteration unfolded. *)
Lemma loop_unfold (remaining : nat) (current : Point T)
    (points : list (Point T)) (calls : nat) :
  loop matrix h (S remaining) current points calls =
    let next := rk4_step matrix h current in
    if diverged next then (points, 4 + calls)
    else loop matrix h remaining next (points ++ [next]) (4 + calls).
Proof.
  cbn [loop]. unfold bind at 1. rewrite rk4_run. cbv zeta.
  destruct (diverged (rk4_step matrix h current)); reflexivity.
Qed.

(** The loop appends [trail] to the points it starts from, and its calls
    of [f] come to four per iteration entered. *)
Lemma loop_trail (remaining : nat) :
  forall (current : Point T) (points : list (Point T)) (calls : nat),
    loop matrix h remaining current points calls =
      (points ++ trail matrix h remaining current,
       4 * Nat.min (S (length (trail matrix h remaining current))) remaining
       + calls).
Proof.
  induction remaining as [|n IH]; intros current points calls.
  - cbn. now rewrite app_nil_r.
  - rewrite loop_unfold. cbn [trail]. cbv zeta.
    destruct (diverged (rk4_step matrix h current)).
    + cbn [length]. rewrite app_nil_r. f_equal; lia.
    + rewrite IH, <- app_assoc. cbn [app length]. f_equal; lia.
Qed.

Lemma trail_chain (remaining : nat) :
  forall current, chain (rk4_step matrix h) current (trail matrix h remaining current).
Proof.
  induction remaining as [|n IH]; intros current; cbn; [exact I|].
  destruct (diverged (rk4_step matrix h current)); cbn; auto.
Qed.

Lemma trail_in_window (remaining : nat) :
  forall current,
    Forall (fun p => diverged p = false) (trail matrix h remaining current).
Proof.
  induction remaining as [|n IH]; intros current; cbn; [constructor|].
  destruct (diverged (rk4_step matrix h current)) eqn:E; constructor; auto.
Qed.

Lemma trail_length (remaining : nat) :
  forall current, length (trail matrix h remaining current) <= remaining.
Proof.
  induction remaining as [|n IH]; intros current; cbn; [lia|].
  destruct (diverged (rk4_step matrix h current)); cbn; [lia|].
  specialize (IH (rk4_step matrix h current)). lia.
Qed.

Lemma last_nonempty (l : list (Point T)) :
  forall x d d', last (x :: l) d = last (x :: l) d'.
Proof.
  induction l as [|y l IH]; intros x d d'; [reflexivity|].
  change (last (y :: l) d = last (y :: l) d'). apply IH.
Qed.

(** If [k] iterations each pushed a point and the next one leaves the
    window, any longer run stops with those [k] points. *)
Lemma trail_cutoff (k : nat) :
  forall remaining current,
    k < remaining ->
    length (trail matrix h k current) = k ->
    diverged (rk4_step matrix h (last (trail matrix h k current) current)) = true ->
    trail matrix h remaining current = trail matrix h k current.
Proof.
  induction k as [|k IH]; intros remaining current Hlt Hlen Hdiv.
  - destruct remaining as [|n]; [lia|]. cbn in *. now rewrite Hdiv.
  - destruct remaining as [|n]; [lia|]. cbn [trail] in *. cbv zeta in *.
    destruct (diverged (rk4_step matrix h current)); [discriminate|].
    cbn [length] in Hlen. f_equal. apply IH; [lia|lia|].
    destruct (trail matrix h k (rk4_step matrix h current)) as [|p l];
      [exact Hdiv|].
    rewrite <- Hdiv.
    change (last (rk4_step matrix h current :: p :: l) current)
      with (last (p :: l) current).
    do 2 f_equal. apply last_nonempty.
Qed.

(** A run that pushed fewer points than it had iterations was cut. *)
Lemma trail_short (remaining : nat) :
  forall current,
    length (trail matrix h remaining current) < remaining ->
    diverged (rk4_step matrix h (last (trail matrix h remaining current) current))
    = true.
Proof.
  induction remaining as [|n IH]; intros current Hlt; [inversion Hlt|].
  cbn [trail] in *. cbv zeta in *.
  destruct (diverged (rk4_step matrix h current)) eqn:E; [exact E|].
  cbn [length] in Hlt.
  specialize (IH (rk4_step matrix h current) ltac:(lia)).
  destruct (trail matrix h n (rk4_step matrix h current)) as [|p l]; [exact IH|].
  rewrite <- IH.
  change (last (rk4_step matrix h current :: p :: l) current)
    with (last (p :: l) current).
  do 2 f_equal. apply last_nonempty.
Qed.

(** Consecutive elements of a chain. *)
Lemma chain_nth (step : Point T -> Point T) (l : list (Point T)) :
  forall p i q,
    chain step p l ->
    nth_error (p :: l) (S i) = Some q ->
    exists p', nth_error (p :: l) i = Some p' /\ q = step p'.
Proof.
  induction l as [|x l IH]; intros p i q Hc Hn.
  - destruct i; discriminate.
  - destruct Hc as [-> Hc]. destruct i as [|i].
    + cbn in Hn. injection Hn as <-. exists p. now split.
    + apply (IH (step p) i q Hc Hn).
Qed.

End LoopFacts.

Section SolveFacts.
Context {T : Type} {N : Number T}.

Lemma solveODE_trail (matrix : Matrix2x2 T) (initial : Point T)
    (steps : nat) (dt : T) (forward : bool) :
  solveODE matrix initial steps dt forward =
    initial :: trail matrix (increment dt forward) steps initial.
Proof. unfold solveODE, solveODE_counted. now rewrite loop_trail. Qed.

Lemma solveODE_calls_trail (matrix : Matrix2x2 T) (initial : Point T)
    (steps : nat) (dt : T) (forward : bool) :
  solveODE_calls matrix initial steps dt forward =
    4 * Nat.min (length (solveODE matrix initial steps dt forward)) steps.
Proof.
  rewrite solveODE_trail. unfold solveODE_calls, solveODE_counted.
  rewrite loop_trail. cbn [snd length]. unfold increment. lia.
Qed.

End SolveFacts.

(** ** [solveODE] on binary64 *)

Section SolveFloat.
Local Open Scope float_scope.

(** [dt * direction] is [dt] forwards and [-dt] backwards, exactly. *)
Lemma increment_float (dt : float) (forward : bool) :
  increment dt forward = if forward then dt else - dt.
Proof.
  unfold increment. destruct forward; cbn.
  - apply Float64Facts.mul_one.
  - apply Float64Facts.mul_minus_one.
Qed.

Lemma not_diverged (p : Point float) :
  diverged p = false -> in_window (p_x p) /\ in_window (p_y p).
Proof.
  unfold diverged, in_window. cbn. intros H.
  apply orb_false_elim in H. destruct H as [Hx Hy].
  apply Float64Facts.not_gtb_abs in Hx, Hy.
  split; [destruct Hx as [?|[?|?]] | destruct Hy as [?|[?|?]]];
    auto; discriminate.
Qed.

End SolveFloat.

(** ** [analyzeMatrix], in any arithmetic *)

Section AnalyzeFacts.
Context {T : Type} {N : Number T}.
Local Open Scope num_scope.
Variable m : Matrix2x2 T.

Ltac open_analysis :=
  unfold analyzeMatrix;
  repeat match goal with
         | |- context [let '(_, _) := ?e in _] => destruct e eqn:?
         end.

Lemma analyze_trace : trace (analyzeMatrix m) = tr_of m.
Proof. open_analysis. reflexivity. Qed.

Lemma analyze_determinant : determinant (analyzeMatrix m) = det_of m.
Proof. open_analysis. reflexivity. Qed.

Lemma analyze_discriminant : discriminant (analyzeMatrix m) = disc_of m.
Proof. open_analysis. reflexivity. Qed.

Lemma analyze_eigenvalues :
  eigenvalues (analyzeMatrix m) =
    if disc_of m >=? n0 then
      (real ((tr_of m + nsqrt (disc_of m)) / n2),
       real ((tr_of m - nsqrt (disc_of m)) / n2))
    else
      ({| re := tr_of m / n2; im := nsqrt (- disc_of m) / n2 |},
       {| re := tr_of m / n2; im := - (nsqrt (- disc_of m) / n2) |}).
Proof.
  open_analysis. cbn [eigenvalues].
  fold (tr_of m) (det_of m) in *. fold (disc_of m) in *.
  destruct (disc_of m >=? n0); congruence.
Qed.

Lemma analyze_eigenvectors :
  eigenvectors (analyzeMatrix m) =
    if disc_of m >=? n0 then
      Some (getEigenvector m ((tr_of m + nsqrt (disc_of m)) / n2),
            getEigenvector m ((tr_of m - nsqrt (disc_of m)) / n2))
    else None.
Proof.
  open_analysis. cbn [eigenvectors].
  fold (tr_of m) (det_of m) in *. fold (disc_of m) in *.
  destruct (disc_of m >=? n0); congruence.
Qed.

Lemma analyze_labels :
  (classification (analyzeMatrix m), stability (analyzeMatrix m)) =
    assign_labels (tr_of m) (det_of m) (disc_of m).
Proof.
  open_analysis. cbn [classification stability].
  fold (tr_of m) (det_of m) in *. fold (disc_of m) in *. congruence.
Qed.

Lemma getEigenvector_im (ev : T) :
  im (v_x (getEigenvector m ev)) = n0 /\ im (v_y (getEigenvector m ev)) = n0.
Proof.
  unfold getEigenvector.
  repeat match goal with
         | |- context [if ?b then _ else _] => destruct b
         end; split; reflexivity.
Qed.

Lemma assign_labels_tags (tr det disc : T) :
  In (fst (assign_labels tr det disc)) classification_tags
  /\ In (snd (assign_labels tr det disc)) stability_tags.
Proof.
  unfold assign_labels, classification_tags, stability_tags.
  repeat match goal with
         | |- context [if ?b then _ else _] => destruct b
         end; cbn; tauto.
Qed.

End AnalyzeFacts.

(** ** [analyzeMatrix] in exact arithmetic *)

Section ExactAnalysis.
Local Open Scope R_scope.
Variable m : Matrix2x2 R.

(** The eigenvalues add up to the trace and multiply to the
    determinant. *)
Lemma exact_sum_product :
  let r := analyzeMatrix m in
  cadd (fst (eigenvalues r)) (snd (eigenvalues r))
  = {| re := trace r; im := 0 |}
  /\ cmul (fst (eigenvalues r)) (snd (eigenvalues r))
     = {| re := determinant r; im := 0 |}.
Proof.
  cbv zeta.
  rewrite analyze_eigenvalues, analyze_trace, analyze_determinant.
  assert (Hd : disc_of m = tr_of m * tr_of m - 4 * det_of m) by reflexivity.
  revert Hd. generalize (disc_of m) (tr_of m) (det_of m).
  intros disc tr det Hd.
  unfold cadd, cmul, real. cbn.
  destruct (Rleb 0 disc) eqn:E; cbn.
  - apply ExactFacts.Rleb_true in E.
    pose proof (sqrt_sqrt _ E) as S.
    split; f_equal; nra.
  - apply ExactFacts.Rleb_false in E.
    assert (E' : 0 <= - disc) by lra.
    pose proof (sqrt_sqrt _ E') as S.
    split; f_equal; nra.
Qed.

(** Dividing two numbers by the root of the sum of their squares gives a
    point of the unit circle. *)
Lemma unit_quotients (p q : R) :
  0 < p * p + q * q ->
  let mag := sqrt (p * p + q * q) in
  0 < mag /\ (p / mag) * (p / mag) + (q / mag) * (q / mag) = 1.
Proof.
  intros H mag.
  assert (Hm : 0 < mag) by (apply sqrt_lt_R0; exact H).
  split; [exact Hm|].
  assert (S : mag * mag = p * p + q * q) by (apply sqrt_sqrt; lra).
  field_simplify_eq; [|lra]. nra.
Qed.

(** The four branches of [getEigenvector], at a root [lambda] of the
    characteristic polynomial. *)
Lemma getEigenvector_unit (lambda : R) :
  (m_a m - lambda) * (m_d m - lambda) = m_b m * m_c m ->
  unit_eigenvector m lambda (getEigenvector m lambda).
Proof.
  intros Hroot.
  unfold unit_eigenvector, negligible_are_zero, residual, getEigenvector.
  cbn.
  set (a' := m_a m - lambda) in *.
  set (d' := m_d m - lambda) in *.
  assert (Hsmall : Rabs 0 <= 1 / 1000000000) by (rewrite Rabs_R0; lra).
  destruct (Rltb (1 / 1000000000) (Rabs (m_b m))) eqn:Eb.
  - (* |b| > 1e-9: (-b, a - lambda), normalised *)
    apply ExactFacts.Rltb_true in Eb. cbn.
    assert (Hb : m_b m <> 0).
    { intros Z. rewrite Z, Rabs_R0 in Eb. lra. }
    assert (Hpos : 0 < (- m_b m) * (- m_b m) + a' * a') by nra.
    destruct (@unit_quotients _ _ Hpos) as [Hmag Hunit].
    replace (m_b m * m_b m + a' * a')
      with ((- m_b m) * (- m_b m) + a' * a') by ring.
    set (mag := sqrt ((- m_b m) * (- m_b m) + a' * a')) in *.
    assert (Hrow1 : a' * (- m_b m / mag) + m_b m * (a' / mag) = 0)
      by (field; lra).
    repeat split; try reflexivity.
    + exact Hunit.
    + rewrite Hrow1. exact Hsmall.
    + intros _. f_equal.
      * exact Hrow1.
      * transitivity ((a' * d' - m_b m * m_c m) / mag); [field; lra|].
        rewrite Hroot. field. lra.
  - apply ExactFacts.Rltb_false in Eb.
    destruct (Rltb (1 / 1000000000) (Rabs a')) eqn:Ea.
    + (* |a - lambda| > 1e-9: (0, 1) *)
      apply ExactFacts.Rltb_true in Ea. cbn.
      repeat split; try reflexivity; try lra.
      * replace (a' * 0 + m_b m * 1) with (m_b m) by ring. exact Eb.
      * intros [H2 _]. specialize (H2 Eb Ea).
        assert (Ha : a' <> 0).
        { intros Z. rewrite Z, Rabs_R0 in Ea. lra. }
        assert (Hd : d' = 0).
        { rewrite H2 in Hroot. nra. }
        f_equal; nra.
    + apply ExactFacts.Rltb_false in Ea.
      destruct (Rltb (1 / 1000000000) (Rabs (m_c m))) eqn:Ec.
      * (* |c| > 1e-9: (-(d - lambda)/c, 1), normalised *)
        apply ExactFacts.Rltb_true in Ec. cbn.
        assert (Hc : m_c m <> 0).
        { intros Z. rewrite Z, Rabs_R0 in Ec. lra. }
        set (xVal := - d' / m_c m) in *.
        assert (Hpos : 0 < xVal * xVal + 1 * 1) by nra.
        destruct (@unit_quotients _ _ Hpos) as [Hmag Hunit].
        replace (xVal * xVal + 1) with (xVal * xVal + 1 * 1) by ring.
        set (mag := sqrt (xVal * xVal + 1 * 1)) in *.
        assert (Hrow1 : a' * (xVal / mag) + m_b m * (1 / mag) = 0).
        { transitivity ((m_b m * m_c m - a' * d') / (m_c m * mag)).
          - unfold xVal. field. lra.
          - rewrite Hroot. field. lra. }
        repeat split; try reflexivity.
        -- exact Hunit.
        -- rewrite Hrow1. exact Hsmall.
        -- intros _. f_equal.
           ++ exact Hrow1.
           ++ unfold xVal. field. lra.
      * (* both rows negligible: (1, 0) *)
        apply ExactFacts.Rltb_false in Ec. cbn.
        repeat split; try reflexivity; try lra.
        -- replace (a' * 1 + m_b m * 0) with a' by ring. exact Ea.
        -- intros [_ H4]. destruct (H4 Eb Ea Ec) as [Ha Hc].
           f_equal; nra.
Qed.

(** Both [(tr + sqrt disc)/2] and [(tr - sqrt disc)/2] are roots of the
    characteristic polynomial. *)
Lemma roots_of_characteristic :
  0 <= disc_of m ->
  let r1 := (tr_of m + sqrt (disc_of m)) / 2 in
  let r2 := (tr_of m - sqrt (disc_of m)) / 2 in
  (m_a m - r1) * (m_d m - r1) = m_b m * m_c m
  /\ (m_a m - r2) * (m_d m - r2) = m_b m * m_c m.
Proof.
  intros H r1 r2. pose proof (sqrt_sqrt _ H) as S.
  subst r1 r2. revert S. generalize (sqrt (disc_of m)). intros s S.
  unfold disc_of, tr_of, det_of in *. cbn in *. split; nra.
Qed.

End ExactAnalysis.

(** ** The trajectory integrator *)

Section Integrator.
Local Open Scope float_scope.
Variable matrix : Matrix2x2 float.
Variable initial : Point float.
Variable steps : nat.
Variable dt : float.
Variable forward : bool.

(** C8: the sequence [solveODE] returns begins with the initial point,
    whatever the step count, and for zero steps it is exactly
    [[initial]], in either direction. *)
Theorem solveODE_starts_at_initial :
  nth_error (solveODE matrix initial steps dt forward) 0 = Some initial
  /\ solveODE matrix initial 0 dt forward = [initial].
Proof. rewrite !solveODE_trail. split; reflexivity. Qed.

(** C2: with [h = dt] forwards and [h = -dt] backwards, every point of
    the returned sequence after the first is the classic four-stage
    Runge-Kutta step [rk4_step] of the point before it; one step evaluates
    the vector field [f] exactly four times, and a whole run four times
    per iteration entered. *)
Theorem solveODE_runge_kutta :
  let h := if forward then dt else - dt in
  let points := solveODE matrix initial steps dt forward in
  (forall i next,
      nth_error points (S i) = Some next ->
      exists current,
        nth_error points i = Some current
        /\ next = rk4_step matrix h current)
  /\ (forall p,
         f matrix p
         = {| p_x := m_a matrix * p_x p + m_b matrix * p_y p;
              p_y := m_c matrix * p_x p + m_d matrix * p_y p |})
  /\ (forall current calls,
         rk4 matrix h current calls
         = (rk4_step matrix h current, (4 + calls)%nat))
  /\ solveODE_calls matrix initial steps dt forward
     = (4 * Nat.min (length points) steps)%nat.
Proof.
  cbv zeta. rewrite <- increment_float. split; [|split; [|split]].
  - intros i next. rewrite solveODE_trail. apply chain_nth, trail_chain.
  - reflexivity.
  - intros current calls. apply rk4_run.
  - apply solveODE_calls_trail.
Qed.

(** C5: the test of the cutoff is [|x| > 20 || |y| > 20] on the point just
    computed.  In an iteration where it holds the loop returns at once the
    points pushed so far, without pushing the new one; otherwise the new
    point is pushed and the loop goes on.  So when the cutoff triggers
    after [k < steps] pushed points, the run returns exactly those
    [k + 1] points, fewer than [steps + 1]; and a run returns fewer than
    [steps + 1] points only when the cutoff triggered. *)
Theorem solveODE_cutoff :
  let h := if forward then dt else - dt in
  let points := solveODE matrix initial steps dt forward in
  (forall p,
      diverged p = true
      <-> (20 <? abs (p_x p)) = true \/ (20 <? abs (p_y p)) = true)
  /\ (forall remaining current pushed calls,
         diverged (rk4_step matrix h current) = true ->
         loop matrix h (S remaining) current pushed calls
         = (pushed, (4 + calls)%nat))
  /\ (forall remaining current pushed calls,
         diverged (rk4_step matrix h current) = false ->
         loop matrix h (S remaining) current pushed calls
         = loop matrix h remaining (rk4_step matrix h current)
             (pushed ++ [rk4_step matrix h current]) (4 + calls)%nat)
  /\ (forall k,
         (k < steps)%nat ->
         let pushed := solveODE matrix initial k dt forward in
         length pushed = S k ->
         diverged (rk4_step matrix h (last pushed initial)) = true ->
         points = pushed /\ (length points < steps + 1)%nat)
  /\ (length points <= steps + 1)%nat
  /\ ((length points < steps + 1)%nat ->
      diverged (rk4_step matrix h (last points initial)) = true).
Proof.
  cbv zeta. rewrite <- increment_float.
  split; [|split; [|split; [|split; [|split]]]].
  - intros p. unfold diverged. cbn. apply orb_true_iff.
  - intros remaining current pushed calls E.
    rewrite loop_unfold. cbv zeta. now rewrite E.
  - intros remaining current pushed calls E.
    rewrite loop_unfold. cbv zeta. now rewrite E.
  - intros k Hk. rewrite !solveODE_trail. cbn [length].
    intros Hlen Hdiv. apply Nat.succ_inj in Hlen.
    assert (E : trail matrix (increment dt forward) steps initial
                = trail matrix (increment dt forward) k initial).
    { apply trail_cutoff; [exact Hk|exact Hlen|].
      destruct (trail matrix (increment dt forward) k initial) as [|p l];
        exact Hdiv. }
    rewrite E. split; [reflexivity|]. cbn [length]. lia.
  - rewrite solveODE_trail. cbn [length].
    pose proof (trail_length matrix (increment dt forward) steps initial). lia.
  - rewrite solveODE_trail. cbn [length]. intros Hlt.
    assert (H : (length (trail matrix (increment dt forward) steps initial)
                 < steps)%nat) by lia.
    apply trail_short in H. rewrite <- H. do 2 f_equal.
    destruct (trail matrix (increment dt forward) steps initial) as [|p l];
      reflexivity.
Qed.

(** C10, as the code has it: every point after the first passed the test
    of the cutoff, so each of its coordinates has absolute value at most
    20 or is a NaN; the initial point is returned first without being
    tested; and a run from outside the window can push further points. *)
Theorem solveODE_window :
  let points := solveODE matrix initial steps dt forward in
  (forall i p,
      (1 <= i)%nat ->
      nth_error points i = Some p ->
      diverged p = false /\ in_window (p_x p) /\ in_window (p_y p))
  /\ nth_error points 0 = Some initial
  /\ (let far := {| p_x := 30; p_y := 0 |} in
      let sink := {| m_a := -1; m_b := 0; m_c := 0; m_d := -1 |} in
      diverged far = true
      /\ solveODE sink far 2 1 true
         = [far; {| p_x := 11.25; p_y := 0 |};
                 {| p_x := 4.21875; p_y := 0 |}]).
Proof.
  cbv zeta. rewrite solveODE_trail. split; [|split].
  - intros i p Hi Hn. destruct i as [|i]; [lia|]. cbn [nth_error] in Hn.
    apply nth_error_In in Hn.
    pose proof (trail_in_window matrix (increment dt forward) steps initial) as F.
    rewrite Forall_forall in F. specialize (F p Hn).
    split; [exact F|]. now apply not_diverged.
  - reflexivity.
  - split; vm_compute; reflexivity.
Qed.

End Integrator.

(** Witnesses and counterexample for the integrator. *)

(** A run that the cutoff ends after one pushed point: from [(19, 0)] the
    second step would reach [x > 20]. *)
Lemma solveODE_cutoff_witness :
  let pushed := solveODE star_source {| p_x := 19; p_y := 0 |}%float 1 0.05%float true in
  let points := solveODE star_source {| p_x := 19; p_y := 0 |}%float 5 0.05%float true in
  (1 < 5)%nat
  /\ length pushed = 2%nat
  /\ diverged (rk4_step star_source 0.05%float
                 (last pushed {| p_x := 19; p_y := 0 |}%float)) = true
  /\ points = pushed /\ (length points < 5 + 1)%nat.
Proof.
  cbv zeta.
  split; [lia|]. split; [vm_compute; reflexivity|].
  split; [vm_compute; reflexivity|].
  apply (proj1 (proj2 (proj2 (proj2
           (solveODE_cutoff star_source {| p_x := 19; p_y := 0 |}%float
              5 0.05%float true)))) 1%nat).
  - lia.
  - vm_compute; reflexivity.
  - vm_compute; reflexivity.
Defined.

Lemma solveODE_runge_kutta_witness :
  let points := solveODE star_source {| p_x := 19; p_y := 0 |}%float 5 0.05%float true in
  nth_error points 1 = Some {| p_x := 19.97415078125; p_y := 0 |}%float
  /\ exists current,
       nth_error points 0 = Some current
       /\ {| p_x := 19.97415078125; p_y := 0 |}%float
          = rk4_step star_source 0.05%float current.
Proof.
  cbv zeta. split; [vm_compute; reflexivity|].
  apply (proj1 (solveODE_runge_kutta star_source
                  {| p_x := 19; p_y := 0 |}%float 5 0.05%float true) 0%nat).
  vm_compute; reflexivity.
Defined.

Lemma solveODE_window_witness :
  let points := solveODE star_source {| p_x := 19; p_y := 0 |}%float 5 0.05%float true in
  let p := {| p_x := 19.97415078125; p_y := 0 |}%float in
  (1 <= 1)%nat /\ nth_error points 1 = Some p
  /\ diverged p = false /\ in_window (p_x p) /\ in_window (p_y p).
Proof.
  cbv zeta. split; [lia|]. split; [vm_compute; reflexivity|].
  apply (proj1 (solveODE_window star_source
                  {| p_x := 19; p_y := 0 |}%float 5 0.05%float true) 1%nat).
  - lia.
  - vm_compute; reflexivity.
Defined.

(** C10 does not hold as stated: with finite entries that overflow, the
    first step is a NaN in both coordinates ([1e308 * 2] is [+infinity],
    [-1e308 * 2] is [-infinity], their sum is NaN); no comparison rejects a
    NaN, so it is pushed, and [|x| <= 20] is false of it. *)
Lemma solveODE_window_counterexample :
  let points :=
    solveODE {| m_a := 1e308; m_b := -1e308; m_c := 0; m_d := 0 |}%float
             {| p_x := 2; p_y := 2 |}%float 3 0.05%float true in
  points = [ {| p_x := 2; p_y := 2 |}; {| p_x := nan; p_y := nan |};
             {| p_x := nan; p_y := nan |}; {| p_x := nan; p_y := nan |} ]%float
  /\ exists p,
       nth_error points 1 = Some p
       /\ (abs (p_x p) <=? 20)%float = false
       /\ (abs (p_y p) <=? 20)%float = false.
Proof.
  cbv zeta. split; [vm_compute; reflexivity|].
  exists {| p_x := nan; p_y := nan |}.
  repeat split; vm_compute; reflexivity.
Defined.

(** ** The equilibrium classifier *)

Section Classifier.
Local Open Scope float_scope.
Variable m : Matrix2x2 float.

(** C1: classification and stability follow the ordered decision tree
    on the signs of the determinant and the discriminant, compared with 0
    exactly; only the split between Center and Spiral Point compares
    [|tr|] with the tolerance [1e-9]. *)
Theorem classify_decision_tree :
  let r := analyzeMatrix m in
  let tr := trace r in
  let det := determinant r in
  let disc := discriminant r in
  ((det <? 0) = true ->
     classification r = "Saddle Point" /\ stability r = "Unstable")
  /\ ((0 <? det) = true -> (0 <? disc) = true ->
      classification r = "Node"
      /\ stability r
         = if 0 <? tr then "Unstable (Source)" else "Stable (Sink)")
  /\ ((0 <? det) = true -> (disc <? 0) = true -> (abs tr <? 1e-9) = true ->
      classification r = "Center" /\ stability r = "Neutrally Stable")
  /\ ((0 <? det) = true -> (disc <? 0) = true -> (1e-9 <=? abs tr) = true ->
      classification r = "Spiral Point"
      /\ stability r
         = if 0 <? tr then "Unstable (Spiral Source)"
           else "Stable (Spiral Sink)")
  /\ ((0 <? det) = true -> (disc =? 0) = true ->
      classification r = "Proper/Improper Node"
      /\ stability r = if 0 <? tr then "Unstable" else "Stable")
  /\ ((det =? 0) = true ->
      classification r = "Degenerate (Non-isolated)"
      /\ stability r = "Marginally Stable").
Proof.
  intros r tr det disc.
  pose proof (analyze_labels m) as L.
  assert (Hc : classification r = fst (assign_labels tr det disc)).
  { subst r tr det disc.
    rewrite analyze_trace, analyze_determinant, analyze_discriminant.
    now rewrite <- L. }
  assert (Hs : stability r = snd (assign_labels tr det disc)).
  { subst r tr det disc.
    rewrite analyze_trace, analyze_determinant, analyze_discriminant.
    now rewrite <- L. }
  rewrite Hc, Hs. clear L Hc Hs. unfold assign_labels. cbn.
  repeat split.
  all: repeat match goal with
         | |- _ -> _ => intro
         end.
  all: repeat match goal with
         | H : (?x <? ?y) = true |- _ =>
             pose proof (Float64Facts.ltb_asym H); rewrite H; clear H
         | H : (?x =? ?y) = true |- _ =>
             destruct (Float64Facts.eqb_not_ltb H); clear H
         | H : (?x <=? ?y) = true |- _ =>
             apply Float64Facts.leb_not_ltb in H
         end.
  all: repeat match goal with
         | H : (_ <? _) = false |- _ => rewrite H; clear H
         end.
  all: reflexivity.
Qed.

(** C6: the eigenvectors are present exactly when [disc >= 0]; for
    [disc < 0] the field is the absent marker. *)
Theorem eigenvectors_present_iff :
  let r := analyzeMatrix m in
  let disc := discriminant r in
  (eigenvectors r <> None <-> (0 <=? disc) = true)
  /\ ((disc <? 0) = true -> eigenvectors r = None).
Proof.
  intros r disc. subst r disc.
  rewrite analyze_eigenvectors, analyze_discriminant.
  generalize (disc_of m). intros d. cbn.
  split.
  - destruct (0 <=? d); split; intros H;
      try reflexivity; try discriminate; now elim H.
  - intros H. now rewrite (Float64Facts.ltb_not_leb H).
Qed.

(** C9, as the code has it: [analyzeMatrix] is a total function; the
    classification is one of the six classification tags, the stability
    one of the eight stability tags, and the placeholders ["Unknown"] and
    ["Neutral"] are never returned. *)
Theorem analyzeMatrix_tags :
  let r := analyzeMatrix m in
  In (classification r) classification_tags
  /\ In (stability r) stability_tags
  /\ classification r <> "Unknown"
  /\ stability r <> "Neutral".
Proof.
  intros r.
  pose proof (analyze_labels m) as L.
  pose proof (assign_labels_tags (tr_of m) (det_of m) (disc_of m)) as [Hc Hs].
  rewrite <- L in Hc, Hs. cbn [fst snd] in Hc, Hs. fold r in Hc, Hs.
  repeat split; try assumption.
  - intros E. rewrite E in Hc. cbn in Hc.
    repeat (destruct Hc as [Hc|Hc]; [discriminate|]). exact Hc.
  - intros E. rewrite E in Hs. cbn in Hs.
    repeat (destruct Hs as [Hs|Hs]; [discriminate|]). exact Hs.
Qed.

End Classifier.

(** C3: the eigenvalues.  For [disc >= 0] they are the real numbers
    [(tr + sqrt disc)/2], first, and [(tr - sqrt disc)/2], both with
    imaginary part 0; for [disc < 0] they have real part [tr/2] and
    imaginary parts [sqrt(-disc)/2], first, and [-(sqrt(-disc)/2)], of
    which the first is positive and the second negative. *)
Theorem eigenvalues_formula (m : Matrix2x2 float) :
  (let r := analyzeMatrix m in
   let tr := trace r in
   let disc := discriminant r in
   ((0 <=? disc) = true ->
      eigenvalues r
      = ({| re := (tr + PrimFloat.sqrt disc) / 2; im := 0 |},
         {| re := (tr - PrimFloat.sqrt disc) / 2; im := 0 |}))
   /\ ((disc <? 0) = true ->
       eigenvalues r
       = ({| re := tr / 2; im := PrimFloat.sqrt (- disc) / 2 |},
          {| re := tr / 2; im := - (PrimFloat.sqrt (- disc) / 2) |})
       /\ (0 <? im (fst (eigenvalues r))) = true
       /\ (im (snd (eigenvalues r)) <? 0) = true))%float.
Proof.
  intros r tr disc. subst r tr disc.
  rewrite analyze_eigenvalues, analyze_trace, analyze_discriminant. cbn.
  split; intros H.
  - now rewrite H.
  - rewrite (Float64Facts.ltb_not_leb H). cbn [fst snd im].
    pose proof (Float64Facts.sqrt_half_positive
                  (Float64Facts.opp_negative H)) as P.
    split; [reflexivity|]. split; [exact P|].
    apply Float64Facts.negative_opp. exact P.
Qed.

(** Witnesses and counterexample for the labels and the eigenvalues. *)

(** One matrix for each branch of the decision tree. *)
Lemma classify_decision_tree_witness :
  (classification (analyzeMatrix saddle) = "Saddle Point"
   /\ stability (analyzeMatrix saddle) = "Unstable")
  /\ (classification (analyzeMatrix stable_node) = "Node"
      /\ stability (analyzeMatrix stable_node) = "Stable (Sink)")
  /\ (classification (analyzeMatrix center) = "Center"
      /\ stability (analyzeMatrix center) = "Neutrally Stable")
  /\ (classification (analyzeMatrix spiral_sink) = "Spiral Point"
      /\ stability (analyzeMatrix spiral_sink) = "Stable (Spiral Sink)")
  /\ (classification (analyzeMatrix stable_star) = "Proper/Improper Node"
      /\ stability (analyzeMatrix stable_star) = "Stable")
  /\ (classification (analyzeMatrix zero_matrix) = "Degenerate (Non-isolated)"
      /\ stability (analyzeMatrix zero_matrix) = "Marginally Stable").
Proof.
  split; [|split; [|split; [|split; [|split]]]].
  - apply (proj1 (classify_decision_tree saddle)). reflexivity.
  - apply (proj1 (proj2 (classify_decision_tree stable_node))); reflexivity.
  - apply (proj1 (proj2 (proj2 (classify_decision_tree center))));
      reflexivity.
  - apply (proj1 (proj2 (proj2 (proj2 (classify_decision_tree spiral_sink)))));
      reflexivity.
  - apply (proj1 (proj2 (proj2 (proj2 (proj2
             (classify_decision_tree stable_star)))))); reflexivity.
  - apply (proj2 (proj2 (proj2 (proj2 (proj2
             (classify_decision_tree zero_matrix)))))); reflexivity.
Defined.

Lemma eigenvalues_formula_witness :
  eigenvalues (analyzeMatrix stable_node)
  = ({| re := -1; im := 0 |}, {| re := -2; im := 0 |})%float
  /\ eigenvalues (analyzeMatrix spiral_sink)
     = ({| re := -1; im := 2 |}, {| re := -1; im := -2 |})%float
  /\ (0 <? im (fst (eigenvalues (analyzeMatrix spiral_sink))))%float = true
  /\ (im (snd (eigenvalues (analyzeMatrix spiral_sink))) <? 0)%float = true.
Proof.
  split.
  - apply (proj1 (eigenvalues_formula stable_node)). reflexivity.
  - apply (proj2 (eigenvalues_formula spiral_sink)). reflexivity.
Defined.

Lemma eigenvectors_present_iff_witness :
  eigenvectors (analyzeMatrix spiral_sink) = None
  /\ eigenvectors (analyzeMatrix saddle) <> None.
Proof.
  split.
  - apply (proj2 (eigenvectors_present_iff spiral_sink)). reflexivity.
  - apply (proj1 (eigenvectors_present_iff saddle)). reflexivity.
Defined.

(** C9 does not hold as stated: no set of six tags holds every stability
    that [analyzeMatrix] returns, since eight matrices get eight different
    ones. *)
Lemma analyzeMatrix_tags_counterexample :
  ~ exists tags : list string,
      length tags = 6%nat
      /\ forall m : Matrix2x2 float, In (stability (analyzeMatrix m)) tags.
Proof.
  intros [tags [Hlen Hall]].
  assert (Hincl : incl stability_tags tags).
  { intros t Ht. cbn in Ht.
    destruct Ht as [<-|[<-|[<-|[<-|[<-|[<-|[<-|[<-|[]]]]]]]]].
    - apply (Hall saddle).
    - apply (Hall unstable_node).
    - apply (Hall stable_node).
    - apply (Hall center).
    - apply (Hall spiral_source).
    - apply (Hall spiral_sink).
    - apply (Hall stable_star).
    - apply (Hall zero_matrix). }
  assert (Hnd : NoDup stability_tags).
  { unfold stability_tags.
    repeat (constructor; [cbn; intuition discriminate|]). constructor. }
  pose proof (NoDup_incl_length Hnd Hincl) as Hle.
  rewrite Hlen in Hle. cbn in Hle. lia.
Defined.

(** ** Invariants of the analysis and the eigenvectors *)

(** C7, as the code has it: trace, determinant and discriminant are
    [a + d], [a d - b c] and [tr tr - 4 det] as binary64 computes them, and
    in exact real arithmetic too, where moreover the two eigenvalues add up
    to the trace and multiply to the determinant exactly. *)
Theorem analyzeMatrix_invariants :
  (forall m : Matrix2x2 float,
      let r := analyzeMatrix m in
      trace r = m_a m + m_d m
      /\ determinant r = m_a m * m_d m - m_b m * m_c m
      /\ discriminant r = trace r * trace r - 4 * determinant r)%float
  /\ (forall m : Matrix2x2 R,
         let r := analyzeMatrix m in
         (trace r = m_a m + m_d m
          /\ determinant r = m_a m * m_d m - m_b m * m_c m
          /\ discriminant r = trace r * trace r - 4 * determinant r
          /\ cadd (fst (eigenvalues r)) (snd (eigenvalues r))
             = {| re := trace r; im := 0 |}
          /\ cmul (fst (eigenvalues r)) (snd (eigenvalues r))
             = {| re := determinant r; im := 0 |})%R).
Proof.
  split; intros m r; subst r.
  - rewrite analyze_trace, analyze_determinant, analyze_discriminant.
    repeat split.
  - destruct (exact_sum_product m) as [Hs Hp].
    rewrite analyze_trace, analyze_determinant, analyze_discriminant in *.
    repeat split; assumption.
Qed.

(** C7 does not hold as stated: for [[1e8 1; 1 0]] the determinant is -1,
    but the smaller root [(tr - sqrt disc)/2] loses its digits to
    cancellation and the product of the eigenvalues is about -0.745. *)
Lemma analyzeMatrix_invariants_counterexample :
  (let r := analyzeMatrix (mkMatrix 1e8 1 1 0) in
   let product := cmul (fst (eigenvalues r)) (snd (eigenvalues r)) in
   determinant r = -1
   /\ product = {| re := -0.74505805969238281; im := 0 |}
   /\ (abs (re product - determinant r) <=? 1e-6) = false)%float.
Proof. cbv zeta. repeat split; vm_compute; reflexivity. Defined.

(** C4, as the code has it, in binary64.  For [disc >= 0] the two
    eigenvectors are [getEigenvector] of the first and of the second
    eigenvalue, computed independently, with imaginary parts 0.
    [getEigenvector] is the row selection with four branches and the
    tolerance [1e-9]: the two normalising branches divide by a computed
    root, the two constant branches return exactly [(0, 1)] and [(1, 0)],
    whose norm is exactly 1.  The program guarantees neither the norm 1 nor
    the equation [(M - lambda I) v = 0].  Only in exact real arithmetic,
    which is not the arithmetic of the program, each vector has Euclidean
    norm 1, solves the first row of the equation up to [1e-9], and solves
    the whole system provided the entries that the row selection neglects
    are zero. *)
Theorem eigenvectors_row_selection :
  (forall m : Matrix2x2 float,
      let r := analyzeMatrix m in
      (0 <=? discriminant r)%float = true ->
      exists v1 v2,
        eigenvectors r = Some (v1, v2)
        /\ v1 = getEigenvector m (re (fst (eigenvalues r)))
        /\ v2 = getEigenvector m (re (snd (eigenvalues r)))
        /\ im (v_x v1) = 0%float /\ im (v_y v1) = 0%float
        /\ im (v_x v2) = 0%float /\ im (v_y v2) = 0%float)
  /\ (forall (m : Matrix2x2 float) (lambda : float),
         let a' := m_a m - lambda in
         let d' := m_d m - lambda in
         let v := getEigenvector m lambda in
         ((1e-9 <? abs (m_b m)) = true ->
          let mag := PrimFloat.sqrt (m_b m * m_b m + a' * a') in
          v = {| v_x := real (- m_b m / mag); v_y := real (a' / mag) |})
         /\ ((1e-9 <? abs (m_b m)) = false ->
             (1e-9 <? abs a') = true ->
             v = {| v_x := real 0; v_y := real 1 |}
             /\ re (v_x v) * re (v_x v) + re (v_y v) * re (v_y v) = 1)
         /\ ((1e-9 <? abs (m_b m)) = false ->
             (1e-9 <? abs a') = false ->
             (1e-9 <? abs (m_c m)) = true ->
             let xVal := - d' / m_c m in
             let mag := PrimFloat.sqrt (xVal * xVal + 1) in
             v = {| v_x := real (xVal / mag); v_y := real (1 / mag) |})
         /\ ((1e-9 <? abs (m_b m)) = false ->
             (1e-9 <? abs a') = false ->
             (1e-9 <? abs (m_c m)) = false ->
             v = {| v_x := real 1; v_y := real 0 |}
             /\ re (v_x v) * re (v_x v) + re (v_y v) * re (v_y v) = 1))%float
  /\ (forall m : Matrix2x2 R,
         let r := analyzeMatrix m in
         (0 <= discriminant r)%R ->
         exists v1 v2,
           eigenvectors r = Some (v1, v2)
           /\ v1 = getEigenvector m (re (fst (eigenvalues r)))
           /\ v2 = getEigenvector m (re (snd (eigenvalues r)))
           /\ unit_eigenvector m (re (fst (eigenvalues r))) v1
           /\ unit_eigenvector m (re (snd (eigenvalues r))) v2).
Proof.
  split; [|split].
  - intros m r; subst r.
    rewrite analyze_eigenvectors, analyze_eigenvalues, analyze_discriminant.
    intros H.
    change (@nleb float Float64 n0 (disc_of m)) with (0 <=? disc_of m)%float.
    rewrite H. cbn [fst snd re real].
    do 2 eexists. split; [reflexivity|]. split; [reflexivity|].
    split; [reflexivity|].
    destruct (getEigenvector_im m ((tr_of m + nsqrt (disc_of m)) / n2)%num)
      as [Hx1 Hy1].
    destruct (getEigenvector_im m ((tr_of m - nsqrt (disc_of m)) / n2)%num)
      as [Hx2 Hy2].
    repeat split; assumption.
  - intros m lambda. cbv zeta. unfold getEigenvector. cbn.
    repeat split; intros;
      repeat match goal with
             | H : _ = _ |- _ => rewrite H
             end;
      reflexivity.
  - intros m r; subst r.
    rewrite analyze_eigenvectors, analyze_eigenvalues, analyze_discriminant.
    intros H.
    change (@nleb R Exact n0 (disc_of m)) with (Rleb 0 (disc_of m)).
    rewrite (proj2 (ExactFacts.Rleb_true _ _) H). cbn [fst snd re real].
    do 2 eexists. split; [reflexivity|]. split; [reflexivity|].
    split; [reflexivity|].
    destruct (roots_of_characteristic H) as [H1 H2].
    split; apply getEigenvector_unit; assumption.
Qed.

(** C4 does not hold as stated.  In binary64, for [[1 1e200; 0 2]] the
    square of [b] overflows, the norm that divides is infinite, and both
    eigenvectors are zero vectors: their norm is 0, not 1.  For
    [[1 1e-10; 0 2]] and the eigenvalue 2 the entry [b = 1e-10] is
    neglected and [(0, 1)] is returned, although
    [(M - 2 I)(0, 1) = (1e-10, 0)]; the same happens in exact arithmetic.
    For [[1 1e-10; 1e10 2]] both eigenvalues get the vector [(0, 1)], with
    second-row residuals of about -0.618 and 1.618. *)
Lemma eigenvectors_counterexample :
  (let r := analyzeMatrix overflowing in
   let v1 := {| v_x := {| re := -0; im := 0 |};
                v_y := {| re := -0; im := 0 |} |} in
   let v2 := {| v_x := {| re := -0; im := 0 |};
                v_y := {| re := 0; im := 0 |} |} in
   (0 <=? discriminant r) = true
   /\ eigenvalues r = ({| re := 2; im := 0 |}, {| re := 1; im := 0 |})
   /\ eigenvectors r = Some (v1, v2)
   /\ re (v_x v1) * re (v_x v1) + re (v_y v1) * re (v_y v1) = 0
   /\ re (v_x v2) * re (v_x v2) + re (v_y v2) * re (v_y v2) = 0
   /\ (0 =? 1) = false)%float
  /\ (let r := analyzeMatrix nearly_triangular in
      (0 <=? discriminant r) = true
      /\ eigenvalues r = ({| re := 2; im := 0 |}, {| re := 1; im := 0 |})
      /\ eigenvectors r
         = Some ({| v_x := {| re := 0; im := 0 |}; v_y := {| re := 1; im := 0 |} |},
                 {| v_x := {| re := 1; im := 0 |}; v_y := {| re := 0; im := 0 |} |})
      /\ residual nearly_triangular 2 0 1 = (1e-10, 0)
      /\ (fst (residual nearly_triangular 2 0 1) =? 0) = false)%float
  /\ (let r := analyzeMatrix stiff in
      (0 <=? discriminant r) = true
      /\ eigenvalues r
         = ({| re := 2.6180339887498949; im := 0 |},
            {| re := 0.3819660112501051; im := 0 |})
      /\ eigenvectors r
         = Some ({| v_x := {| re := 0; im := 0 |}; v_y := {| re := 1; im := 0 |} |},
                 {| v_x := {| re := 0; im := 0 |}; v_y := {| re := 1; im := 0 |} |})
      /\ residual stiff 2.6180339887498949 0 1
         = (1e-10, -0.6180339887498949)
      /\ residual stiff 0.3819660112501051 0 1
         = (1e-10, 1.6180339887498949))%float
  /\ (let r := analyzeMatrix nearly_triangular_exact in
      0 <= discriminant r
      /\ re (fst (eigenvalues r)) = 2
      /\ exists v1 v2,
           eigenvectors r = Some (v1, v2)
           /\ re (v_x v1) = 0 /\ re (v_y v1) = 1
           /\ residual nearly_triangular_exact 2 0 1 <> (0, 0))%R.
Proof.
  split; [|split; [|split]].
  - cbv zeta. repeat split; vm_compute; reflexivity.
  - cbv zeta. repeat split; vm_compute; reflexivity.
  - cbv zeta. repeat split; vm_compute; reflexivity.
  - cbv zeta.
    assert (Hd : disc_of nearly_triangular_exact = 1%R)
      by (unfold disc_of, tr_of, det_of; cbn; lra).
    assert (Ht : tr_of nearly_triangular_exact = 3%R)
      by (unfold tr_of; cbn; lra).
    rewrite analyze_discriminant, analyze_eigenvalues, analyze_eigenvectors.
    rewrite Hd, Ht.
    change (@nleb R Exact n0 1%R) with (Rleb 0 1).
    rewrite (proj2 (ExactFacts.Rleb_true 0 1)) by lra.
    change (@nsqrt R Exact 1%R) with (sqrt 1). rewrite sqrt_1.
    cbn [fst snd re real].
    cbn [nadd nsub ndiv n2 Exact].
    replace ((3 + 1) / 2)%R with 2%R by lra.
    split; [lra|]. split; [reflexivity|].
    do 2 eexists. split; [reflexivity|].
    unfold getEigenvector. cbn.
    assert (E1 : Rltb (1 / 1000000000) (Rabs (1 / 10000000000)) = false)
      by (apply ExactFacts.Rltb_false; rewrite Rabs_pos_eq; lra).
    assert (E2 : Rltb (1 / 1000000000) (Rabs (1 - 2)) = true).
    { apply ExactFacts.Rltb_true. replace (1 - 2)%R with (- (1))%R by lra.
      rewrite Rabs_Ropp, Rabs_R1. lra. }
    rewrite E1, E2. cbn. split; [reflexivity|]. split; [reflexivity|].
    unfold residual. cbn. intros E. injection E as E _. lra.
Defined.

Lemma eigenvectors_row_selection_witness :
  ((0 <=? discriminant (analyzeMatrix saddle))%float = true
   /\ exists v1 v2,
        eigenvectors (analyzeMatrix saddle) = Some (v1, v2)
        /\ im (v_x v1) = 0%float /\ im (v_y v1) = 0%float
        /\ im (v_x v2) = 0%float /\ im (v_y v2) = 0%float)
  /\ (((1e-9 <? abs (m_b nearly_triangular)) = false
       /\ (1e-9 <? abs (m_a nearly_triangular - 2)) = true)
      /\ getEigenvector nearly_triangular 2
         = {| v_x := real 0; v_y := real 1 |})%float
  /\ ((0 <= discriminant (analyzeMatrix diagonal_exact))%R
      /\ negligible_are_zero diagonal_exact 2%R
      /\ negligible_are_zero diagonal_exact 1%R
      /\ exists v1 v2,
           eigenvectors (analyzeMatrix diagonal_exact) = Some (v1, v2)
           /\ (re (v_x v1) * re (v_x v1) + re (v_y v1) * re (v_y v1) = 1)%R
           /\ (re (v_x v2) * re (v_x v2) + re (v_y v2) * re (v_y v2) = 1)%R
           /\ residual diagonal_exact 2%R (re (v_x v1)) (re (v_y v1)) = (0, 0)%R
           /\ residual diagonal_exact 1%R (re (v_x v2)) (re (v_y v2)) = (0, 0)%R).
Proof.
  assert (Ed : disc_of diagonal_exact = 1%R)
    by (unfold disc_of, tr_of, det_of; cbn; lra).
  assert (Et : tr_of diagonal_exact = 3%R) by (unfold tr_of; cbn; lra).
  assert (Hd : (0 <= discriminant (analyzeMatrix diagonal_exact))%R)
    by (rewrite analyze_discriminant, Ed; lra).
  assert (Ev : eigenvalues (analyzeMatrix diagonal_exact)
               = (real 2%R, real 1%R)).
  { rewrite analyze_eigenvalues, Ed, Et.
    change (@nleb R Exact n0 1%R) with (Rleb 0 1).
    rewrite (proj2 (ExactFacts.Rleb_true 0 1)) by lra.
    change (@nsqrt R Exact 1%R) with (sqrt 1). rewrite sqrt_1.
    cbn [nadd nsub ndiv n2 Exact]. f_equal; f_equal; lra. }
  assert (N2 : negligible_are_zero diagonal_exact 2%R).
  { split; cbn; intros; [reflexivity|split; lra]. }
  assert (N1 : negligible_are_zero diagonal_exact 1%R).
  { split; cbn; intros Hb Ha; [reflexivity|].
    replace (2 - 1)%R with 1%R in Ha by lra. rewrite Rabs_R1 in Ha. lra. }
  assert (Hb : (1e-9 <? abs (m_b nearly_triangular))%float = false)
    by reflexivity.
  assert (Ha : (1e-9 <? abs (m_a nearly_triangular - 2))%float = true)
    by reflexivity.
  split; [split|split; [split|split]].
  - reflexivity.
  - destruct (proj1 eigenvectors_row_selection saddle eq_refl)
      as (v1 & v2 & He & _ & _ & I).
    exists v1, v2. split; assumption.
  - split; assumption.
  - exact (proj1 (proj1 (proj2
             (proj1 (proj2 eigenvectors_row_selection)
                nearly_triangular 2%float)) Hb Ha)).
  - exact Hd.
  - split; [exact N2|]. split; [exact N1|].
    destruct (proj2 (proj2 eigenvectors_row_selection) diagonal_exact Hd)
      as (v1 & v2 & He & _ & _ & U1 & U2).
    rewrite Ev in U1, U2. cbn [fst snd re real] in U1, U2.
    destruct U1 as (_ & _ & L1 & _ & R1).
    destruct U2 as (_ & _ & L2 & _ & R2).
    exists v1, v2. repeat split; auto.
Defined.

(** ** The plotted path: [handleAddTrajectory] *)

Section PathFacts.
Context {T : Type} {N : Number T} {P : PlotNumber T}.
Variable matrix : Matrix2x2 T.
Variable initial : Point T.

(** The path is the backward trail reversed, the initial point, and the
    forward trail. *)
Lemma fullPoints_split :
  fullPoints matrix initial =
    rev (trail matrix (increment n003 false) 300 initial)
    ++ initial :: trail matrix (increment n003 true) 300 initial.
Proof.
  unfold fullPoints. rewrite !solveODE_trail. cbn [rev tl].
  now rewrite <- app_assoc.
Qed.

(** Consecutive elements of a reversed chain. *)
Lemma chain_rev_nth (step : Point T -> Point T) (l : list (Point T)) :
  forall p0 i p q,
    chain step p0 l ->
    nth_error (rev (p0 :: l)) i = Some p ->
    nth_error (rev (p0 :: l)) (S i) = Some q ->
    p = step q.
Proof.
  intros p0 i p q Hc Hp Hq.
  rewrite nth_error_rev in Hp, Hq.
  destruct (Nat.ltb_spec (S i) (length (p0 :: l))) as [Hlt|]; [|discriminate].
  destruct (Nat.ltb_spec i (length (p0 :: l))) as [_|]; [|discriminate].
  replace (length (p0 :: l) - S i) with (S (length (p0 :: l) - S (S i)))
    in Hp by lia.
  destruct (chain_nth step l p0 _ Hc Hp) as (q' & Hq' & ->).
  congruence.
Qed.

(** Two consecutive points of the path: before the initial point the
    earlier one is the step of the later one with the backward increment,
    from the initial point on the later one is the step of the earlier one
    with the forward increment. *)
Lemma fullPoints_consecutive (i : nat) (p q : Point T) :
  nth_error (fullPoints matrix initial) i = Some p ->
  nth_error (fullPoints matrix initial) (S i) = Some q ->
  if (S i <? length (solveODE matrix initial 300 n003 false))%nat
  then p = rk4_step matrix (increment n003 false) q
  else q = rk4_step matrix (increment n003 true) p.
Proof.
  rewrite fullPoints_split, solveODE_trail. cbn [length].
  set (B := trail matrix (increment n003 false) 300 initial).
  set (F := trail matrix (increment n003 true) 300 initial).
  assert (HB : chain (rk4_step matrix (increment n003 false)) initial B)
    by apply trail_chain.
  assert (HF : chain (rk4_step matrix (increment n003 true)) initial F)
    by apply trail_chain.
  assert (E : rev B ++ initial :: F = rev (initial :: B) ++ F)
    by (cbn [rev]; now rewrite <- app_assoc).
  clearbody B F. intros Hp Hq.
  destruct (Nat.ltb_spec (S i) (S (length B))) as [Hlt|Hge].
  - rewrite E in Hp, Hq.
    rewrite nth_error_app1 in Hp by (rewrite length_rev; cbn [length]; lia).
    rewrite nth_error_app1 in Hq by (rewrite length_rev; cbn [length]; lia).
    exact (@chain_rev_nth _ B initial i p q HB Hp Hq).
  - rewrite nth_error_app2 in Hp by (rewrite length_rev; lia).
    rewrite nth_error_app2 in Hq by (rewrite length_rev; lia).
    rewrite length_rev in Hp, Hq.
    replace (S i - length B) with (S (i - length B)) in Hq by lia.
    eapply chain_nth in Hq; [|exact HF]. destruct Hq as (p' & Hp' & ->).
    congruence.
Qed.

(** Every point of the path but the initial one passed the test of the
    cutoff. *)
Lemma fullPoints_not_diverged (i : nat) (p : Point T) :
  nth_error (fullPoints matrix initial) i = Some p ->
  i <> length (solveODE matrix initial 300 n003 false) - 1 ->
  diverged p = false.
Proof.
  rewrite fullPoints_split, solveODE_trail. cbn [length].
  set (B := trail matrix (increment n003 false) 300 initial).
  set (F := trail matrix (increment n003 true) 300 initial).
  assert (HB : Forall (fun p => diverged p = false) B)
    by apply trail_in_window.
  assert (HF : Forall (fun p => diverged p = false) F)
    by apply trail_in_window.
  rewrite Forall_forall in HB, HF.
  clearbody B F. intros Hp Hi.
  destruct (Nat.ltb_spec i (length B)) as [Hlt|Hge].
  - rewrite nth_error_app1 in Hp by (rewrite length_rev; lia).
    apply nth_error_In, in_rev in Hp. auto.
  - rewrite nth_error_app2 in Hp by (rewrite length_rev; lia).
    rewrite length_rev in Hp.
    destruct (i - length B) as [|k] eqn:Ek; [lia|].
    cbn in Hp. apply nth_error_In in Hp. auto.
Qed.

(** X1: the plotted path is the backward run without its first point,
    reversed, followed by the whole forward run.  So the clicked point
    occurs in it once for the two runs, at the index where the backward
    part ends, and the path has between 1 and 601 points. *)
Theorem fullPoints_through_initial :
  let forward := solveODE matrix initial 300 n003 true in
  let backward := solveODE matrix initial 300 n003 false in
  fullPoints matrix initial = rev (tl backward) ++ forward
  /\ nth_error (fullPoints matrix initial) (length backward - 1)
     = Some initial
  /\ length (fullPoints matrix initial)
     = length backward + length forward - 1
  /\ 1 <= length (fullPoints matrix initial) <= 601.
Proof.
  cbv zeta. rewrite fullPoints_split, !solveODE_trail. cbn [tl length].
  pose proof (trail_length matrix (increment n003 false) 300 initial) as HB.
  pose proof (trail_length matrix (increment n003 true) 300 initial) as HF.
  revert HB HF.
  generalize (trail matrix (increment n003 false) 300 initial) as B.
  generalize (trail matrix (increment n003 true) 300 initial) as F.
  intros F B HB HF.
  split; [reflexivity|]. split.
  - rewrite nth_error_app2 by (rewrite length_rev; lia).
    rewrite length_rev.
    now replace (_ - _ - _) with 0 by lia.
  - rewrite length_app, length_rev. cbn [length]. lia.
Qed.

(** X2: adding a trajectory keeps the last nine of the previous ones, in
    their order, and puts the new one last; the list never grows beyond
    ten, the oldest ones being dropped. *)
Theorem handleAddTrajectory_keeps_last_nine
    (id color : string) (prev : list (Trajectory T)) :
  let newTraj := {| t_id := id; t_points := fullPoints matrix initial;
                    t_initial := initial; t_color := color |} in
  let next := handleAddTrajectory matrix id color initial prev in
  length next = Nat.min (length prev) 9 + 1
  /\ exists dropped,
       prev ++ [newTraj] = dropped ++ next
       /\ length dropped = length prev - 9.
Proof.
  cbv zeta. unfold handleAddTrajectory, slice_last. split.
  - rewrite length_app, length_skipn. cbn [length]. lia.
  - exists (firstn (length prev - 9) prev). split.
    + now rewrite app_assoc, firstn_skipn.
    + rewrite length_firstn. lia.
Qed.

End PathFacts.

Section PathFloat.
Local Open Scope float_scope.
Variable matrix : Matrix2x2 float.
Variable initial : Point float.

(** X3: the path is in the order of time, with the step 0.03.  Of two
    consecutive points, the earlier one is the Runge-Kutta step with
    [h = -0.03] of the later one as long as both belong to the backward
    run, and the later one is the step with [h = 0.03] of the earlier one
    from the clicked point on. *)
Theorem fullPoints_time_order (i : nat) (p q : Point float) :
  nth_error (fullPoints matrix initial) i = Some p ->
  nth_error (fullPoints matrix initial) (S i) = Some q ->
  if (S i <? length (solveODE matrix initial 300 0.03%float false))%nat
  then p = rk4_step matrix (- 0.03) q
  else q = rk4_step matrix 0.03 p.
Proof.
  intros Hp Hq.
  pose proof (fullPoints_consecutive matrix initial i Hp Hq) as H.
  rewrite !increment_float in H. exact H.
Qed.

(** X4: every point of the path other than the clicked one lies in the
    window: each coordinate has absolute value at most 20, or is a NaN.
    The clicked point itself is never tested. *)
Theorem fullPoints_in_window (i : nat) (p : Point float) :
  nth_error (fullPoints matrix initial) i = Some p ->
  i <> (length (solveODE matrix initial 300 0.03%float false) - 1)%nat ->
  in_window (p_x p) /\ in_window (p_y p).
Proof.
  intros Hp Hi. apply not_diverged.
  exact (fullPoints_not_diverged _ _ Hp Hi).
Qed.

End PathFloat.


Lemma fullPoints_time_order_witness :
  let start := {| p_x := 1; p_y := 1 |}%float in
  let before := rk4_step star_source (- 0.03)%float start in
  (nth_error (fullPoints star_source start) 299 = Some before
   /\ nth_error (fullPoints star_source start) 300 = Some start)
  /\ before = rk4_step star_source (- 0.03)%float start.
Proof.
  cbv zeta.
  assert (Hp : nth_error (fullPoints star_source {| p_x := 1; p_y := 1 |}%float) 299
               = Some (rk4_step star_source (- 0.03)%float
                         {| p_x := 1; p_y := 1 |}%float))
    by (vm_compute; reflexivity).
  assert (Hq : nth_error (fullPoints star_source {| p_x := 1; p_y := 1 |}%float) 300
               = Some {| p_x := 1; p_y := 1 |}%float)
    by (vm_compute; reflexivity).
  split; [split; assumption|].
  pose proof (fullPoints_time_order star_source _ 299 Hp Hq) as H.
  vm_compute in H. vm_compute. exact H.
Defined.

Lemma fullPoints_in_window_witness :
  let start := {| p_x := 19; p_y := 1 |}%float in
  let p := rk4_step star_source 0.03%float start in
  (nth_error (fullPoints star_source start) 301 = Some p
   /\ 301 <> length (solveODE star_source start 300 0.03%float false) - 1)
  /\ in_window (p_x p) /\ in_window (p_y p).
Proof.
  cbv zeta.
  assert (Hp : nth_error (fullPoints star_source {| p_x := 19; p_y := 1 |}%float) 301
               = Some (rk4_step star_source 0.03%float
                         {| p_x := 19; p_y := 1 |}%float))
    by (vm_compute; reflexivity).
  assert (Hi : 301 <> length (solveODE star_source {| p_x := 19; p_y := 1 |}%float
                                300 0.03%float false) - 1)
    by (vm_compute; lia).
  split; [split; assumption|].
  exact (fullPoints_in_window star_source _ Hp Hi).
Defined.

(** ** The text fields of the matrix: [matrix], [handleInputChange],
    [formatTerm] *)

Module JsNumberFacts.
Local Open Scope float_scope.

(** Only a NaN differs from itself. *)
Lemma is_nan_true (x : float) : is_nan x = true -> x = nan.
Proof.
  unfold is_nan. rewrite eqb_spec. unfold SFeqb.
  pose proof (Float64Facts.SFcompare_swap (Prim2SF x) (Prim2SF x)) as S.
  destruct (SFcompare (Prim2SF x) (Prim2SF x)) as [[]|] eqn:E;
    try discriminate.
  intros _. apply Float64Facts.Prim2SF_nan.
  now destruct (Float64Facts.SFcompare_None _ _ E).
Qed.

Lemma zero_not_negzero : 0 <> -0.
Proof.
  intros H. apply (f_equal Prim2SF) in H. vm_compute in H. discriminate.
Qed.

Lemma or_zero_not_nan (x : float) : is_nan (or_zero x) = false.
Proof.
  unfold or_zero.
  destruct (x =? 0) eqn:E0, (is_nan x) eqn:En; cbn; auto.
Qed.

Lemma or_zero_not_negzero (x : float) : or_zero x <> -0.
Proof.
  unfold or_zero.
  destruct (x =? 0) eqn:E0; cbn; [exact zero_not_negzero|].
  destruct (is_nan x); [exact zero_not_negzero|].
  intros ->. vm_compute in E0. discriminate.
Qed.

Lemma or_zero_cases (x : float) :
  or_zero x = x \/ (or_zero x = 0 /\ ((x =? 0) = true \/ x = nan)).
Proof.
  unfold or_zero.
  destruct (x =? 0) eqn:E0; cbn; [right; auto|].
  destruct (is_nan x) eqn:En; [|left; reflexivity].
  right. split; [reflexivity|]. right. now apply is_nan_true.
Qed.

Lemma or_zero_nan (x : float) : is_nan x = true -> or_zero x = 0.
Proof.
  intros H. unfold or_zero. rewrite H. now rewrite orb_true_r.
Qed.

End JsNumberFacts.

Lemma get_set_input (key : Key) (val : string) (prev : MatrixInputs) :
  get_input key (set_input key val prev) = val.
Proof. destruct key; reflexivity. Qed.

Lemma get_set_input_other (k key : Key) (val : string) (prev : MatrixInputs) :
  k <> key -> get_input k (set_input key val prev) = get_input k prev.
Proof. destruct k, key; intros H; try reflexivity; now elim H. Qed.

Lemma append_empty (s t : string) : (s ++ t)%string = "" -> t = "".
Proof. destruct s; [auto|discriminate]. Qed.

Section AppTextFacts.
Local Open Scope float_scope.
Variable parseFloat : string -> float.
Variable toString : float -> string.

Lemma matrix_of_entry (key : Key) (inputs : MatrixInputs) :
  get_entry key (matrix_of parseFloat inputs)
  = or_zero (parseFloat (get_input key inputs)).
Proof. destruct key; reflexivity. Qed.

(** X5: every entry of the numeric matrix is the number parsed from its
    text field, or 0 when the text does not parse (NaN) or parses to a
    zero.  So the matrix that is analysed and integrated never holds a NaN
    or a negative zero, whatever the fields contain. *)
Theorem matrix_of_numbers (key : Key) (inputs : MatrixInputs) :
  let x := parseFloat (get_input key inputs) in
  let e := get_entry key (matrix_of parseFloat inputs) in
  is_nan e = false
  /\ e <> -0
  /\ (e = x \/ (e = 0 /\ ((x =? 0) = true \/ x = nan))).
Proof.
  cbv zeta. rewrite matrix_of_entry.
  split; [apply JsNumberFacts.or_zero_not_nan|].
  split; [apply JsNumberFacts.or_zero_not_negzero|].
  apply JsNumberFacts.or_zero_cases.
Qed.

(** X6: an edit whose text does not parse keeps the plotted trajectories,
    although it changes the matrix: the edited entry becomes 0, whatever
    it was, and the other entries stay. *)
Theorem handleInputChange_unparsable (key : Key) (val : string)
    (st : AppState) :
  is_nan (parseFloat val) = true ->
  let st' := handleInputChange parseFloat key val st in
  trajectories st' = trajectories st
  /\ get_entry key (matrix_of parseFloat (matrixInputs st')) = 0
  /\ forall k,
       k <> key ->
       get_entry k (matrix_of parseFloat (matrixInputs st'))
       = get_entry k (matrix_of parseFloat (matrixInputs st)).
Proof.
  intros Hnan. cbv zeta. unfold handleInputChange. cbn [trajectories matrixInputs].
  rewrite Hnan. cbn [negb]. split; [reflexivity|]. split.
  - rewrite matrix_of_entry, get_set_input.
    now apply JsNumberFacts.or_zero_nan.
  - intros k Hk. rewrite !matrix_of_entry.
    now rewrite get_set_input_other.
Qed.

(** X7: a term of the displayed equation is empty exactly when its
    coefficient parses to a zero. *)
Theorem formatTerm_empty_iff (coeff variable : string) (isFirst : bool) :
  variable <> "" ->
  formatTerm parseFloat toString coeff variable isFirst = ""
  <-> (parseFloat coeff =? 0) = true.
Proof.
  intros Hv. unfold formatTerm.
  destruct (parseFloat coeff =? 0); [tauto|].
  split; [|discriminate].
  intros H. apply append_empty, append_empty in H. contradiction.
Qed.

(** X8: a coefficient that does not parse is displayed as a term with a
    minus sign and the text of NaN, while the entry of the matrix that is
    computed from the same text is 0. *)
Theorem formatTerm_unparsable (coeff variable : string) (isFirst : bool) :
  is_nan (parseFloat coeff) = true ->
  formatTerm parseFloat toString coeff variable isFirst
  = ((if isFirst then "-" else " - ") ++ toString nan ++ variable)%string
  /\ or_zero (parseFloat coeff) = 0.
Proof.
  intros Hnan. split; [|now apply JsNumberFacts.or_zero_nan].
  apply JsNumberFacts.is_nan_true in Hnan.
  unfold formatTerm. rewrite Hnan. reflexivity.
Qed.

End AppTextFacts.

Lemma handleInputChange_unparsable_witness :
  let parseFloat := fun s : string =>
    if String.eqb s "2" then 2%float else nan in
  let inputs := {| in_a := "2"; in_b := "2"; in_c := "2"; in_d := "2" |} in
  let drawn := [ {| t_id := "t"; t_points := [];
                    t_initial := {| p_x := 1%float; p_y := 1%float |};
                    t_color := "c" |} ] in
  let st := {| matrixInputs := inputs; trajectories := drawn |} in
  let st' := handleInputChange parseFloat Kb "" st in
  is_nan (parseFloat "") = true
  /\ trajectories st' = drawn
  /\ matrix_of parseFloat (matrixInputs st) = (mkMatrix 2 2 2 2)%float
  /\ get_entry Kb (matrix_of parseFloat (matrixInputs st')) = 0%float.
Proof.
  cbv zeta. split; [reflexivity|].
  split; [|split; [reflexivity|]];
    apply (handleInputChange_unparsable
             (fun s : string => if String.eqb s "2" then 2%float else nan)
             Kb ""
             {| matrixInputs :=
                  {| in_a := "2"; in_b := "2"; in_c := "2"; in_d := "2" |};
                trajectories :=
                  [ {| t_id := "t"; t_points := [];
                       t_initial := {| p_x := 1%float; p_y := 1%float |};
                       t_color := "c" |} ] |});
    reflexivity.
Defined.

Lemma formatTerm_empty_iff_witness :
  let parseFloat := fun s : string =>
    if String.eqb s "0.0" then 0%float else nan in
  "y" <> ""
  /\ (formatTerm parseFloat (fun _ => "NaN") "0.0" "y" false = ""
      <-> (parseFloat "0.0" =? 0)%float = true).
Proof.
  cbv zeta. split; [discriminate|].
  apply (formatTerm_empty_iff
           (fun s : string => if String.eqb s "0.0" then 0%float else nan)
           (fun _ => "NaN") "0.0" false).
  discriminate.
Defined.

Lemma formatTerm_unparsable_witness :
  let parseFloat := fun s : string =>
    if String.eqb s "2" then 2%float else nan in
  is_nan (parseFloat "") = true
  /\ formatTerm parseFloat (fun _ => "NaN") "" "y" false = " - NaNy"
  /\ or_zero (parseFloat "") = 0%float.
Proof.
  cbv zeta. split; [reflexivity|].
  apply (formatTerm_unparsable
           (fun s : string => if String.eqb s "2" then 2%float else nan)
           (fun _ => "NaN") "" "y" false).
  reflexivity.
Defined.

(** ** The eigenvalue lines of [App]: imaginary parts *)

Module ComparisonFacts.
Local Open Scope float_scope.

Lemma ltb_not_eqb (x y : float) :
  (x <? y) = true -> (x =? y) = false /\ (y =? x) = false.
Proof. Float64Facts.by_compare x y. Qed.

(** [!(x <= y)] leaves [y < x] or a NaN. *)
Lemma leb_false_cases (x y : float) :
  (x <=? y) = false -> (y <? x) = true \/ x = nan \/ y = nan.
Proof.
  rewrite ltb_spec, leb_spec. unfold SFltb, SFleb.
  rewrite (Float64Facts.SFcompare_swap (Prim2SF x) (Prim2SF y)).
  destruct (SFcompare (Prim2SF x) (Prim2SF y)) as [[]|] eqn:E;
    simpl; auto; try discriminate.
  intros _. right.
  destruct (Float64Facts.SFcompare_None _ _ E) as [H|H];
    [left|right]; now apply Float64Facts.Prim2SF_nan.
Qed.

End ComparisonFacts.

Section ImaginaryParts.
Local Open Scope float_scope.
Variable m : Matrix2x2 float.

(** X9: [App] prints the part [+- |im| i] of an eigenvalue when [im !== 0].
    It does so for both eigenvalues or for none, and exactly when
    [analyzeMatrix] returned no eigenvectors: the imaginary part
    [sqrt(-disc) / 2] of a negative discriminant never rounds to zero, and
    that of a NaN discriminant is a NaN. *)
Theorem imaginary_part_shown :
  let r := analyzeMatrix m in
  shows_imaginary (fst (eigenvalues r)) = shows_imaginary (snd (eigenvalues r))
  /\ (shows_imaginary (fst (eigenvalues r)) = true
      <-> eigenvectors r = None).
Proof.
  cbv zeta. rewrite analyze_eigenvalues, analyze_eigenvectors.
  generalize (disc_of m) (tr_of m). intros d t.
  change (@nleb float Float64 n0 d) with (0 <=? d).
  unfold shows_imaginary. destruct (0 <=? d) eqn:E.
  - cbn. split; [reflexivity|]. split; discriminate.
  - cbn [fst snd im].
    change (@ndiv float Float64) with PrimFloat.div.
    change (@nsqrt float Float64) with PrimFloat.sqrt.
    change (@nopp float Float64) with PrimFloat.opp.
    change (@n2 float Float64) with 2.
    destruct (ComparisonFacts.leb_false_cases E) as [H|[H|H]].
    + apply Float64Facts.opp_negative, Float64Facts.sqrt_half_positive in H.
      pose proof (Float64Facts.negative_opp H) as H'.
      apply ComparisonFacts.ltb_not_eqb in H, H'.
      destruct H as [_ ->], H' as [-> _]. cbn. tauto.
    + vm_compute in H. apply (f_equal Prim2SF) in H. discriminate.
    + subst d. vm_compute. tauto.
Qed.

End ImaginaryParts.

(** ** The colour of the stability line *)

Section StabilityColour.
Local Open Scope float_scope.
Variable m : Matrix2x2 float.

Lemma stability_of_labels :
  stability (analyzeMatrix m)
  = snd (assign_labels (tr_of m) (det_of m) (disc_of m)).
Proof. now rewrite <- analyze_labels. Qed.

(** X10: in binary64, on the trace, determinant and discriminant that
    [analyzeMatrix] computed, the stability line is red (its label
    contains "Unstable") exactly when [det < 0], or [det > 0] and
    [tr > 0] unless [disc < 0] and [|tr| < 1e-9]; in every other case it
    is green.  So a center and a degenerate equilibrium are shown in
    green whatever the sign of the trace, and so is every matrix whose
    determinant is a NaN. *)
Theorem stability_red_iff :
  let r := analyzeMatrix m in
  (stability_class r = "text-rose-500"
   <-> (determinant r <? 0) = true
       \/ ((0 <? determinant r) = true
           /\ (0 <? trace r) = true
           /\ ((discriminant r <? 0) = false
               \/ (abs (trace r) <? 1e-9) = false)))
  /\ (stability_class r = "text-rose-500"
      \/ stability_class r = "text-emerald-600").
Proof.
  cbv zeta. unfold stability_class.
  rewrite analyze_trace, analyze_determinant, analyze_discriminant.
  rewrite stability_of_labels.
  generalize (disc_of m) (tr_of m) (det_of m). intros disc tr det.
  unfold assign_labels. cbn [nltb nabs n0 eps Float64].
  destruct (det <? 0) eqn:E1; [|destruct (0 <? det) eqn:E2];
    [| destruct (0 <? disc) eqn:E3;
       [|destruct (disc <? 0) eqn:E4;
         [destruct (abs tr <? 1e-9) eqn:E5|]] |];
    try destruct (0 <? tr) eqn:E6;
    try (apply Float64Facts.ltb_asym in E3 as E3');
    cbn; (split; [split|]); auto; try tauto;
    try discriminate;
    try (intros [H|(H1 & H2 & [H3|H3])]; congruence).
Qed.

End StabilityColour.

(** ** The phase portrait: [gridPoints] and [getArrowHeads] *)

Section LoopFuel.
Context {T : Type} {N : Number T}.

(** A [for] loop that ends with some fuel ends in the same way with more
    fuel, also for its body. *)
Lemma for_upto_more {S : Type} (body1 body2 : T -> S -> option S) :
  (forall i acc r, body1 i acc = Some r -> body2 i acc = Some r) ->
  forall fuel extra i steps acc r,
    for_upto fuel i steps body1 acc = Some r ->
    for_upto (fuel + extra) i steps body2 acc = Some r.
Proof.
  intros Hb. induction fuel as [|fuel IH]; intros extra i steps acc r;
    cbn [for_upto Nat.add]; [discriminate|].
  destruct (nleb i steps); [|auto].
  destruct (body1 i acc) as [acc'|] eqn:E; [|discriminate].
  rewrite (Hb _ _ _ E). apply IH.
Qed.

End LoopFuel.

Section Grid.
Local Open Scope float_scope.
Variable atan2 : float -> float -> float.
Variable matrix : Matrix2x2 float.

(** X13: the two loops of [gridPoints] end, their counters being exact
    small integers, and push 16 x 16 points, column by column: the point
    for the counters [i], [j] has the coordinates
    [-5 + i * (10/15)], [-5 + j * (10/15)] as binary64 computes them.
    The first coordinate is -5 and the last one 5 exactly, and no
    coordinate is zero: the origin is not a lattice point. *)
Theorem gridPoints_lattice (fuel : nat) :
  (17 <= fuel)%nat ->
  gridPoints atan2 fuel matrix
  = Some (flat_map
            (fun i =>
               map (fun j => gridPoint atan2 matrix (coordinate i) (coordinate j))
                   (seq 0 16))
            (seq 0 16))
  /\ coordinate 0 = -5 /\ coordinate 15 = 5
  /\ Forall (fun k => (coordinate k =? 0) = false) (seq 0 16).
Proof.
  intros Hfuel. split.
  - replace fuel with (17 + (fuel - 17))%nat by lia.
    generalize (fuel - 17)%nat. intros extra. unfold gridPoints.
    apply for_upto_more
      with (body1 := fun i points =>
              for_upto 17 n0 n15
                (fun j points =>
                   Some (points ++
                         [gridPoint atan2 matrix
                            (- range + i * (n2 * range / n15))%num
                            (- range + j * (n2 * range / n15))%num]))
                points).
    + intros i acc r. apply for_upto_more. auto.
    + vm_compute. reflexivity.
  - split; [vm_compute; reflexivity|]. split; [vm_compute; reflexivity|].
    repeat constructor.
Qed.

End Grid.

Lemma gridPoints_lattice_witness :
  (17 <= 17)%nat
  /\ exists points,
       gridPoints (fun _ _ => 0%float) 17 saddle = Some points
       /\ length points = 256%nat.
Proof.
  split; [lia|].
  destruct (gridPoints_lattice (fun _ _ => 0%float) saddle (le_n 17))
    as [H _].
  eexists. split; [exact H|]. reflexivity.
Defined.

Section ArrowHeads.
Context {T : Type} {N : Number T}.
Variable atan2 : T -> T -> T.
Variable xScale : T -> T.
Variable yScale : T -> T.

(** [Math.floor] of a quarter, a half and three quarters of a length. *)
Lemma indices_quarters (n : nat) :
  ArrowIndex.indices n = [n / 4; n / 2; 3 * n / 4].
Proof.
  unfold ArrowIndex.indices, ArrowIndex.floor_times.
  unfold Qround.Qfloor, QArith_base.Qmult, QArith_base.inject_Z.
  cbn [QArith_base.Qnum QArith_base.Qden].
  repeat f_equal.
  - apply Nat2Z.inj. rewrite Z2Nat.id, Nat2Z.inj_div by (apply Z.div_pos; lia).
    change (Z.of_nat 4) with 4%Z.
    rewrite <- (Z.div_mul_cancel_r (Z.of_nat n) 4 25) by lia. reflexivity.
  - apply Nat2Z.inj. rewrite Z2Nat.id, Nat2Z.inj_div by (apply Z.div_pos; lia).
    change (Z.of_nat 2) with 2%Z.
    rewrite <- (Z.div_mul_cancel_r (Z.of_nat n) 2 5) by lia. reflexivity.
  - apply Nat2Z.inj. rewrite Z2Nat.id, Nat2Z.inj_div by (apply Z.div_pos; lia).
    rewrite Nat2Z.inj_mul.
    change (Z.of_nat 4) with 4%Z. change (Z.of_nat 3) with 3%Z.
    rewrite <- (Z.div_mul_cancel_r (3 * Z.of_nat n) 4 25) by lia.
    f_equal. lia.
Qed.

Lemma nth_error_some (pts : list (Point T)) (i : nat) :
  i < length pts -> exists p, nth_error pts i = Some p.
Proof.
  intros H. destruct (nth_error pts i) as [p|] eqn:E; [now exists p|].
  apply nth_error_None in E. lia.
Qed.

(** One arrow head is pushed for an index below the length. *)
Lemma head_pushed (pts : list (Point T)) (i : nat) :
  i + 1 < length pts ->
  exists h,
    head_at (arrowHead atan2 xScale yScale) pts i h
    /\ match nth_error pts i,
             nth_error pts (Nat.min (i + 5) (length pts - 1)) with
       | Some p1, Some p2 => [arrowHead atan2 xScale yScale p1 p2]
       | _, _ => []
       end = [h].
Proof.
  intros H.
  destruct (@nth_error_some pts i) as [p Hp]; [lia|].
  destruct (@nth_error_some pts (Nat.min (i + 5) (length pts - 1)))
    as [q Hq]; [lia|].
  exists (arrowHead atan2 xScale yScale p q). split.
  - exists p, q. repeat split; auto. lia.
  - now rewrite Hp, Hq.
Qed.

(** X16: a trajectory of fewer than ten points gets no arrow head.  A
    longer one gets exactly three, at a quarter, a half and three quarters
    of its length: the indices are always in range, so no head is ever
    skipped, and each head points from its point to a strictly later
    point of the path. *)
Theorem getArrowHeads_three (traj : Trajectory T) :
  let pts := t_points traj in
  let n := length pts in
  (n < 10 -> getArrowHeads atan2 xScale yScale traj = [])
  /\ (10 <= n ->
      exists h1 h2 h3,
        getArrowHeads atan2 xScale yScale traj = [h1; h2; h3]
        /\ head_at (arrowHead atan2 xScale yScale) pts (n / 4) h1
        /\ head_at (arrowHead atan2 xScale yScale) pts (n / 2) h2
        /\ head_at (arrowHead atan2 xScale yScale) pts (3 * n / 4) h3).
Proof.
  cbv zeta. unfold getArrowHeads. split; intros Hn.
  - now rewrite (proj2 (Nat.ltb_lt _ _) Hn).
  - rewrite (proj2 (Nat.ltb_ge _ _) Hn), indices_quarters.
    cbn [flat_map].
    pose proof (Nat.Div0.mul_div_le (length (t_points traj)) 4) as Q1.
    pose proof (Nat.Div0.mul_div_le (length (t_points traj)) 2) as Q2.
    pose proof (Nat.Div0.mul_div_le (3 * length (t_points traj)) 4) as Q3.
    destruct (@head_pushed (t_points traj) (length (t_points traj) / 4))
      as (h1 & H1 & ->); [lia|].
    destruct (@head_pushed (t_points traj) (length (t_points traj) / 2))
      as (h2 & H2 & ->); [lia|].
    destruct (@head_pushed (t_points traj) (3 * length (t_points traj) / 4))
      as (h3 & H3 & ->); [lia|].
    exists h1, h2, h3. cbn. auto.
Qed.

End ArrowHeads.

(** ** The equilibrium at the origin, in binary64 *)

Module ZeroFacts.
Local Open Scope float_scope.

(** A finite number is a zero or has a mantissa and an exponent. *)
Lemma is_finite_cases (a : float) :
  is_finite a = true ->
  (exists s, Prim2SF a = S754_zero s)
  \/ (exists s m e, Prim2SF a = S754_finite s m e).
Proof.
  unfold is_finite, is_nan, is_infinity.
  rewrite !eqb_spec, abs_spec.
  change (Prim2SF infinity) with (S754_infinity false).
  destruct (Prim2SF a) as [s|s| |s m e]; intros H.
  - left. now exists s.
  - destruct s; discriminate H.
  - discriminate H.
  - right. now exists s, m, e.
Qed.

(** [x === 0] holds of the two zeros only. *)
Lemma eqb_zero_cases (x : float) :
  (x =? 0) = true <-> exists s, Prim2SF x = S754_zero s.
Proof.
  rewrite eqb_spec. change (Prim2SF 0) with (S754_zero false).
  destruct (Prim2SF x) as [s|s| |s m e]; unfold SFeqb; cbn; split;
    try destruct s; try discriminate; try (intros [s' H]; discriminate);
    eauto.
Qed.

(** A finite number times a zero is a zero. *)
Lemma mul_zero (a z : float) :
  is_finite a = true -> (z =? 0) = true -> (a * z =? 0) = true.
Proof.
  intros Ha Hz. apply eqb_zero_cases in Hz. destruct Hz as [sz Hz].
  apply eqb_zero_cases. rewrite mul_spec, Hz.
  destruct (is_finite_cases a Ha) as [[s ->]|(s & m & e & ->)]; cbn; eauto.
Qed.

(** The sum of two zeros is a zero. *)
Lemma add_zero (x y : float) :
  (x =? 0) = true -> (y =? 0) = true -> (x + y =? 0) = true.
Proof.
  intros Hx Hy. apply eqb_zero_cases in Hx, Hy.
  destruct Hx as [sx Hx], Hy as [sy Hy].
  apply eqb_zero_cases. rewrite add_spec, Hx, Hy.
  destruct sx, sy; cbn; eauto.
Qed.

(** Adding a zero of either sign to [+0] gives [+0]. *)
Lemma zero_plus (y : float) : (y =? 0) = true -> 0 + y = 0.
Proof.
  intros Hy. apply eqb_zero_cases in Hy. destruct Hy as [sy Hy].
  apply Prim2SF_inj. rewrite add_spec, Hy.
  change (Prim2SF 0) with (S754_zero false). now destruct sy.
Qed.

End ZeroFacts.

Section OriginFloat.
Local Open Scope float_scope.
Variable m : Matrix2x2 float.
Hypothesis finite_entries : finite_matrix m = true.

(** The field at the origin is a zero vector, of either sign. *)
Lemma f_origin :
  (p_x (f m origin) =? 0) = true /\ (p_y (f m origin) =? 0) = true.
Proof.
  unfold finite_matrix in finite_entries.
  apply andb_prop in finite_entries. destruct finite_entries as [H Hd].
  apply andb_prop in H. destruct H as [H Hc].
  apply andb_prop in H. destruct H as [Ha Hb].
  unfold f, origin. cbn.
  split; apply ZeroFacts.add_zero; apply ZeroFacts.mul_zero;
    auto; reflexivity.
Qed.

(** A finite multiple of a zero vector does not move the origin. *)
Lemma vadd_origin (s : float) (k : Point float) :
  is_finite s = true ->
  (p_x k =? 0) = true -> (p_y k =? 0) = true ->
  vadd origin (vscale s k) = origin.
Proof.
  intros Hs Hx Hy. unfold vadd, vscale, origin. cbn.
  f_equal; apply ZeroFacts.zero_plus; now apply ZeroFacts.mul_zero.
Qed.

Ltac zero_sum :=
  first [ assumption
        | apply ZeroFacts.mul_zero; [reflexivity|assumption]
        | apply ZeroFacts.add_zero; zero_sum ].

Lemma rk4_step_origin (h : float) :
  is_finite h = true ->
  is_finite (h / 2) = true ->
  is_finite (h / 6) = true ->
  rk4_step m h origin = origin.
Proof.
  intros Hh H2 H6. destruct f_origin as [Kx Ky].
  unfold rk4_step. cbv zeta.
  change (is_finite (h / n2)%num = true) in H2.
  change (is_finite (h / n6)%num = true) in H6.
  rewrite !(@vadd_origin (h / n2)%num (f m origin) H2 Kx Ky).
  rewrite (@vadd_origin h (f m origin) Hh Kx Ky).
  apply vadd_origin; [exact H6| |];
    unfold vadd, vscale; cbn [p_x p_y]; zero_sum.
Qed.

Lemma trail_origin (h : float) (remaining : nat) :
  is_finite h = true ->
  is_finite (h / 2) = true ->
  is_finite (h / 6) = true ->
  trail m h remaining origin = repeat origin remaining.
Proof.
  intros Hh H2 H6.
  induction remaining as [|n IH]; cbn [trail repeat]; [reflexivity|].
  cbv zeta. rewrite (@rk4_step_origin h Hh H2 H6).
  change (diverged origin) with false. cbv iota. now rewrite IH.
Qed.

(** X19: in binary64, for a matrix with finite entries the origin is an
    equilibrium of the integrator too.  A run from [(0, 0)] returns
    [steps + 1] copies of [(0, 0)], provided the increment [h], [h / 2]
    and [h / 6] are finite; and the path that [handleAddTrajectory] plots
    from the origin, with its step 0.03, is 601 copies of it. *)
Theorem solveODE_origin_fixed :
  (forall (steps : nat) (dt : float) (forward : bool),
      let h := if forward then dt else - dt in
      is_finite h = true ->
      is_finite (h / 2) = true ->
      is_finite (h / 6) = true ->
      solveODE m origin steps dt forward = repeat origin (S steps))
  /\ fullPoints m origin = repeat origin 601.
Proof.
  split.
  - intros steps dt forward h Hh H2 H6.
    rewrite solveODE_trail, increment_float. fold h.
    now rewrite (@trail_origin h steps Hh H2 H6).
  - rewrite fullPoints_split, !increment_float.
    rewrite !trail_origin by reflexivity.
    reflexivity.
Qed.

End OriginFloat.

Lemma solveODE_origin_fixed_witness :
  finite_matrix spiral_source = true
  /\ (is_finite 0.05 = true /\ is_finite (0.05 / 2) = true
      /\ is_finite (0.05 / 6) = true)%float
  /\ solveODE spiral_source origin 5 0.05%float true = repeat origin 6
  /\ fullPoints spiral_source origin = repeat origin 601.
Proof.
  assert (H : finite_matrix spiral_source = true) by reflexivity.
  split; [exact H|]. split; [repeat split|].
  split.
  - apply (proj1 (@solveODE_origin_fixed spiral_source H) 5%nat 0.05%float true);
      reflexivity.
  - exact (proj2 (@solveODE_origin_fixed spiral_source H)).
Defined.
